(** * firewall_port_tester_py36v1: a shallow embedding and its properties

    The development follows the layout of the script:
    - [PyStr]     the string methods the script calls (strip, split, int);
    - [Ports]     [parse_ports];
    - [Hosts]     [validate_hosts] and [expand_targets_from_file];
    - [Tasks]     [make_tasks];
    - [Probe]     [resolve_host], [local_ip_for_target], [tcp_check],
                  [udp_probe_sync] over an explicit record of what the
                  network answers;
    - [Executor]  [worker], [run_checks] and [main] as a scheduler-driven
                  state machine over the shared queue and result list.

    Python strings are modelled as [string] (sequences of 8-bit characters),
    Python integers as [Z], exceptions as values of [exn] carried by
    [result]. *)

From Stdlib Require Import ZArith List Ascii String Lia Permutation.
From stdpp Require Import base decidable option list gmap strings.

Set Warnings "-clear-no-such-hyp".

Open Scope string_scope.
Open Scope list_scope.
Open Scope Z_scope.

(** ** Exceptions *)

(** The exception classes the script tells apart, each with the text that
    [str(e)] gives. [ConnectionRefusedError] and [socket.timeout] are
    subclasses of [OSError]; [OSError] below stands for every other
    [OSError]; [asyncio.TimeoutError] is not an [OSError] in Python 3.6. *)
Inductive exn : Type :=
| ValueError (detail : string)
| TypeError (detail : string)
| AsyncTimeoutError (detail : string)
| ConnectionRefusedError (detail : string)
| SocketTimeout (detail : string)
| OSError (detail : string)
| OtherException (detail : string).

Definition str_of_exn (e : exn) : string :=
  match e with
  | ValueError d | TypeError d | AsyncTimeoutError d | ConnectionRefusedError d
  | SocketTimeout d | OSError d | OtherException d => d
  end.

(** [isinstance(e, OSError)] *)
Definition is_OSError (e : exn) : bool :=
  match e with
  | ConnectionRefusedError _ | SocketTimeout _ | OSError _ => true
  | _ => false
  end.

Inductive result (A : Type) : Type :=
| Ok (a : A)
| Raise (e : exn).
Arguments Ok {A} a.
Arguments Raise {A} e.

#[global] Instance result_ret : MRet result := fun A a => Ok a.
#[global] Instance result_bind : MBind result := fun A B k r =>
  match r with
  | Ok a => k a
  | Raise e => Raise e
  end.

(** ** Python string methods *)

Module PyStr.

(** [str.isspace] restricted to the 8-bit range below 128. *)
Definition is_space (c : ascii) : bool :=
  let n := nat_of_ascii c in
  ((9 <=? n)%nat && (n <=? 13)%nat) || ((28 <=? n)%nat && (n <=? 32)%nat).

Fixpoint lstrip (s : string) : string :=
  match s with
  | EmptyString => EmptyString
  | String c s' => if is_space c then lstrip s' else s
  end.

Fixpoint rstrip (s : string) : string :=
  match s with
  | EmptyString => EmptyString
  | String c s' =>
      match rstrip s' with
      | EmptyString => if is_space c then EmptyString else String c EmptyString
      | r => String c r
      end
  end.

(** [s.strip()] *)
Definition strip (s : string) : string := rstrip (lstrip s).

(** Truth value of a string: non-empty. *)
Definition truthy (s : string) : bool :=
  match s with
  | EmptyString => false
  | String _ _ => true
  end.

(** [sep in s] for a one-character [sep]. *)
Fixpoint contains (sep : ascii) (s : string) : bool :=
  match s with
  | EmptyString => false
  | String c s' => Ascii.eqb c sep || contains sep s'
  end.

(** [s.split(sep)] for a one-character [sep]: never the empty list. *)
Fixpoint split (sep : ascii) (s : string) : list string :=
  match s with
  | EmptyString => [EmptyString]
  | String c s' =>
      if Ascii.eqb c sep then EmptyString :: split sep s'
      else match split sep s' with
           | w :: ws => String c w :: ws
           | [] => [String c EmptyString]
           end
  end.

(** [s.split(sep, 1)]: cut at the first [sep] only. *)
Fixpoint split1 (sep : ascii) (s : string) : list string :=
  match s with
  | EmptyString => [EmptyString]
  | String c s' =>
      if Ascii.eqb c sep then [EmptyString; s']
      else match split1 sep s' with
           | w :: ws => String c w :: ws
           | [] => [String c EmptyString]
           end
  end.

Definition digit_of (c : ascii) : option Z :=
  let n := nat_of_ascii c in
  if (48 <=? n)%nat && (n <=? 57)%nat then Some (Z.of_nat (n - 48)) else None.

(** The digits of a decimal literal, most significant first; a single
    underscore is allowed between two digits. [prev] tells whether the
    previous character was a digit. *)
Fixpoint int_digits (acc : Z) (prev : bool) (s : string) : option Z :=
  match s with
  | EmptyString => if prev then Some acc else None
  | String c s' =>
      match digit_of c with
      | Some d => int_digits (10 * acc + d) true s'
      | None =>
          if Ascii.eqb c "_" && prev then
            match s' with
            | EmptyString => None
            | String _ _ => int_digits acc false s'
            end
          else None
      end
  end.

(** C's [isspace] on 7-bit characters: the blanks [int] skips around a
    literal (for [str.strip] the set is [is_space], which is larger). *)
Definition is_c_space (c : ascii) : bool :=
  let n := nat_of_ascii c in
  ((9 <=? n)%nat && (n <=? 13)%nat) || (n =? 32)%nat.

Fixpoint skip_blanks (s : string) : string :=
  match s with
  | EmptyString => EmptyString
  | String c s' => if is_c_space c then skip_blanks s' else s
  end.

Fixpoint drop_trailing_blanks (s : string) : string :=
  match s with
  | EmptyString => EmptyString
  | String c s' =>
      match drop_trailing_blanks s' with
      | EmptyString => if is_c_space c then EmptyString else String c EmptyString
      | r => String c r
      end
  end.

(** [int(s)] in base ten: blanks around the literal, an optional sign,
    digits. The text of the [ValueError] shows [s] between quotes, which is
    [repr(s)] when [s] holds no quote, backslash or unprintable character. *)
Definition int (s : string) : result Z :=
  let t := drop_trailing_blanks (skip_blanks s) in
  let body :=
    match t with
    | String "+" r => int_digits 0 false r
    | String "-" r => Z.opp <$> int_digits 0 false r
    | _ => int_digits 0 false t
    end in
  match body with
  | Some n => Ok n
  | None =>
      Raise (ValueError ("invalid literal for int() with base 10: '" +:+ s +:+ "'"))
  end.

(** Every character of [s] is whitespace. *)
Fixpoint all_space (s : string) : bool :=
  match s with
  | EmptyString => true
  | String c s' => is_space c && all_space s'
  end.

(** [s] holds nothing but commas and whitespace. *)
Fixpoint only_commas_and_space (s : string) : bool :=
  match s with
  | EmptyString => true
  | String c s' => (Ascii.eqb c "," || is_space c) && only_commas_and_space s'
  end.

(** [range(lo, hi)] as a list. *)
Definition range (lo hi : Z) : list Z := seqZ lo (hi - lo).

End PyStr.

(** ** parse_ports *)

Module Ports.
Import PyStr.

(** [[p.strip() for p in portspec.split(',') if p.strip()]] *)
Definition parts (portspec : string) : list string :=
  strip <$> List.filter (fun p => truthy (strip p)) (split "," portspec).

(** One iteration of the first loop: what the part adds to [out]. *)
Definition expand_part (part : string) : result (list Z) :=
  if contains "-" part then
    match split1 "-" part with
    | [a; b] =>
        x ← int a;
        y ← int b;
        Ok (range x (y + 1))
    | _ => Raise (ValueError "not enough values to unpack")
    end
  else
    x ← int part;
    Ok [x].

(** The first loop, threading [out]. *)
Fixpoint expand_loop (out : list Z) (ps : list string) : result (list Z) :=
  match ps with
  | [] => Ok out
  | part :: rest =>
      more ← expand_part part;
      expand_loop (out ++ more) rest
  end.

(** [[p for p in out if not (p in seen or seen.add(p))]] *)
Fixpoint uniq_loop (seen : gset Z) (out : list Z) : list Z :=
  match out with
  | [] => []
  | p :: rest =>
      if decide (p ∈ seen) then uniq_loop seen rest
      else p :: uniq_loop ({[p]} ∪ seen) rest
  end.

Definition parse_ports (portspec : string) : result (list Z) :=
  out ← expand_loop [] (parts portspec);
  Ok (uniq_loop ∅ out).

End Ports.

(** ** validate_hosts, expand_targets_from_file *)

Module Hosts.
Import PyStr.

Section Validate.
(** [ipaddress.ip_address]: [None] stands for its [ValueError]. *)
Context {ip : Type} (ip_address : string -> option ip).

Fixpoint validate_loop (out : list string) (hosts : list string) : list string :=
  match hosts with
  | [] => out
  | h :: rest =>
      let h := strip h in
      if negb (truthy h) then validate_loop out rest
      else
        match ip_address h with
        | Some _ => validate_loop (out ++ [h]) rest
        | None => validate_loop (out ++ [h]) rest
        end
  end.

Definition validate_hosts (hosts : list string) : list string :=
  validate_loop [] hosts.
End Validate.

(** [[h.strip() for h in targets.split(',') if h.strip()]] *)
Definition split_targets (targets : string) : list string :=
  strip <$> List.filter (fun h => truthy (strip h)) (split "," targets).

Section File.
(** [open(path, 'r')] followed by iteration over the lines. *)
Variable open_lines : string -> result (list string).

Fixpoint lines_loop (out : list string) (lines : list string) : list string :=
  match lines with
  | [] => out
  | line :: rest =>
      let s := strip (hd EmptyString (split1 "#" line)) in
      if truthy s then lines_loop (out ++ [s]) rest else lines_loop out rest
  end.

Definition expand_targets_from_file (path : option string) : result (list string) :=
  match path with
  | None => Raise (TypeError "expected str, bytes or os.PathLike object, not NoneType")
  | Some p => lines ← open_lines p; Ok (lines_loop [] lines)
  end.
End File.

(** An entry that [strip] leaves alone and that is not empty. *)
Definition clean (h : string) : Prop := truthy h = true /\ strip h = h.

End Hosts.

(** ** make_tasks *)

Module Tasks.

(** A task is the tuple [(host, port, prot)]. *)
Definition Task : Type := string * Z * string.

(** [x in (a, b)] on strings. *)
Definition in_pair (x a b : string) : bool := String.eqb x a || String.eqb x b.

(** Body of the inner loop. *)
Definition add_tasks (proto : string) (h : string) (tasks : list Task) (p : Z) : list Task :=
  let tasks := if in_pair proto "tcp" "both" then tasks ++ [(h, p, "tcp")] else tasks in
  let tasks := if in_pair proto "udp" "both" then tasks ++ [(h, p, "udp")] else tasks in
  tasks.

Definition make_tasks (hosts : list string) (ports : list Z) (proto : string) : list Task :=
  fold_left (fun tasks h => fold_left (add_tasks proto h) ports tasks) hosts [].

(** What one (host, port) pair contributes to the list, read off
    [add_tasks]. *)
Definition pair_tasks (proto h : string) (p : Z) : list Task :=
  (if in_pair proto "tcp" "both" then [(h, p, "tcp")] else [])
  ++ (if in_pair proto "udp" "both" then [(h, p, "udp")] else []).

End Tasks.

(** ** The probes *)

Module Probe.
Import PyStr Tasks.

(** What the operating system and the network answer during one probe.
    Every field is the outcome of the call named in its comment; a
    [Raise] is the exception that call throws. *)
Record net : Type := {
  gethostbyname : string -> result string;   (* socket.gethostbyname(host) *)
  socket_new : result unit;                  (* socket.socket(AF_INET, ...) of the probe *)
  setblocking : result unit;                 (* rsock.setblocking(False) *)
  settimeout : result unit;                  (* sock.settimeout(timeout) *)
  bind : string -> result unit;              (* sock.bind((bind_ip, 0)) *)
  sock_connect : string -> Z -> result unit; (* wait_for(loop.sock_connect(rsock, (ip, port)), timeout) *)
  connect : string -> Z -> result unit;      (* sock.connect((ip, port)) of the UDP probe *)
  getsockname : result string;               (* sock.getsockname()[0] of the probe *)
  send : result unit;                        (* sock.send(b'port-check\n') *)
  recv : result string;                      (* sock.recv(4096) *)
  close : result unit;                       (* sock.close() in the finally of udp_probe_sync *)
  aux_socket : result unit;                  (* the socket of local_ip_for_target *)
  aux_connect : string -> Z -> result unit;  (* s.connect((target, 53)) *)
  aux_getsockname : result string;           (* s.getsockname()[0] *)
  aux_close : result unit;                   (* s.close() *)
  elapsed_ms : Z                             (* time.time() - start, in milliseconds *)
}.

(** [try: body  except Exception as e: handler e] *)
Definition catch {A} (body : result A) (handler : exn -> result A) : result A :=
  match body with
  | Ok a => Ok a
  | Raise e => handler e
  end.

(** [try: body  finally: cleanup]: [cleanup] runs in every case, and an
    exception of [cleanup] replaces what [body] returned or raised. *)
Definition try_finally {A} (body : result A) (cleanup : result unit) : result A :=
  match cleanup with
  | Ok _ => body
  | Raise e => Raise e
  end.

(** Truth value of the optional [bind_ip]. *)
Definition given (bind_ip : option string) : bool :=
  match bind_ip with
  | Some b => truthy b
  | None => false
  end.

(** [bind_ip or alt] *)
Definition or_else (bind_ip : option string) (alt : string) : string :=
  match bind_ip with
  | Some b => if truthy b then b else alt
  | None => alt
  end.

(** The tuple [(src_ip, dst_ip, port, status, elapsed)]. *)
Definition probe_tuple : Type := string * string * Z * string * Z.

Section OneProbe.
Variable w : net.

Definition resolve_host (host : string) : string :=
  match gethostbyname w host with
  | Ok ip => ip
  | Raise _ => host
  end.

(** The [try] block of [local_ip_for_target]. *)
Definition local_ip_try (target : string) : result string :=
  _ ← aux_socket w;
  _ ← aux_connect w target 53;
  ip ← aux_getsockname w;
  _ ← aux_close w;
  Ok ip.

Definition local_ip_for_target (target : string) : string :=
  match local_ip_try target with
  | Ok ip => ip
  | Raise _ => "unknown"
  end.

(** [if bind_ip: try: sock.bind((bind_ip, 0)) except Exception: pass] *)
Definition try_bind (bind_ip : option string) : result unit :=
  match bind_ip with
  | Some b => if truthy b then catch (bind w b) (fun _ => Ok tt) else Ok tt
  | None => Ok tt
  end.

(** [try: src_ip = sock.getsockname()[0]
     except Exception: src_ip = bind_ip or local_ip_for_target(dst_ip)] *)
Definition source_of_socket (bind_ip : option string) (dst_ip : string) : result string :=
  catch (getsockname w) (fun _ => Ok (or_else bind_ip (local_ip_for_target dst_ip))).

(** The [try] block of [tcp_check], first part: from the creation of the
    socket to the awaited connect. *)
Definition tcp_attempt (dst_ip : string) (port : Z) (bind_ip : option string)
  : result unit :=
  _ ← socket_new w;
  _ ← setblocking w;
  _ ← try_bind bind_ip;
  sock_connect w dst_ip port.

(** The [try] block of [tcp_check] up to its [return]. *)
Definition tcp_try (dst_ip : string) (port : Z) (bind_ip : option string)
  : result probe_tuple :=
  _ ← tcp_attempt dst_ip port bind_ip;
  src_ip ← source_of_socket bind_ip dst_ip;
  Ok (src_ip, dst_ip, port, "open", elapsed_ms w).

(** The [except] clauses of [tcp_check], in their order. *)
Definition tcp_except (dst_ip : string) (port : Z) (bind_ip : option string) (e : exn)
  : result probe_tuple :=
  match e with
  | AsyncTimeoutError _ =>
      Ok (or_else bind_ip (local_ip_for_target dst_ip), dst_ip, port, "timeout", elapsed_ms w)
  | ConnectionRefusedError _ =>
      Ok (or_else bind_ip (local_ip_for_target dst_ip), dst_ip, port, "closed", elapsed_ms w)
  | _ =>
      if is_OSError e then
        Ok (or_else bind_ip (local_ip_for_target dst_ip), dst_ip, port,
            "error:" +:+ str_of_exn e, elapsed_ms w)
      else
        Ok (or_else bind_ip (local_ip_for_target dst_ip), dst_ip, port,
            "error:" +:+ str_of_exn e, elapsed_ms w)
  end.

(** The [finally] of [tcp_check] closes the socket inside a [try] of its
    own that swallows every exception: it changes nothing of what is
    returned. *)
Definition tcp_check (host : string) (port : Z) (bind_ip : option string)
  : result probe_tuple :=
  let dst_ip := resolve_host host in
  catch (tcp_try dst_ip port bind_ip) (tcp_except dst_ip port bind_ip).

(** [try: data = sock.recv(4096); status = 'open'
     except socket.timeout: ...  except OSError as e: ...] *)
Definition udp_status : result string :=
  match recv w with
  | Ok _ => Ok "open"
  | Raise (SocketTimeout _) => Ok "no-response"
  | Raise e => if is_OSError e then Ok ("error:" +:+ str_of_exn e) else Raise e
  end.

(** The [try] block of [udp_probe_sync]. *)
Definition udp_try (dst_ip : string) (port : Z) (bind_ip : option string)
  : result probe_tuple :=
  _ ← settimeout w;
  _ ← try_bind bind_ip;
  _ ← connect w dst_ip port;
  src_ip ← source_of_socket bind_ip dst_ip;
  _ ← send w;
  status ← udp_status;
  Ok (src_ip, dst_ip, port, status, elapsed_ms w).

(** The socket is created before the [try]; the [try] has a [finally]
    closing the socket, outside any [try] of its own, and no [except]:
    what the block or the [close] raises goes to the caller. *)
Definition udp_probe_sync (host : string) (port : Z) (bind_ip : option string)
  : result probe_tuple :=
  let dst_ip := resolve_host host in
  _ ← socket_new w;
  try_finally (udp_try dst_ip port bind_ip) (close w).

(** [await loop.run_in_executor(executor, udp_probe_sync, ...)] gives what
    the call gives, its exception included. *)
Definition udp_check (host : string) (port : Z) (bind_ip : option string)
  : result probe_tuple :=
  udp_probe_sync host port bind_ip.
End OneProbe.

(** *** The outcome variants of the design and their status strings *)

Inductive ProbeOutcome : Type :=
| Open
| Closed
| Timeout
| NoResponse
| Error (detail : string).

Definition status_text (o : ProbeOutcome) : string :=
  match o with
  | Open => "open"
  | Closed => "closed"
  | Timeout => "timeout"
  | NoResponse => "no-response"
  | Error d => "error:" +:+ d
  end.

(** The classification the design gives for a TCP connection attempt:
    established, refused, no answer within the timeout, any other failure. *)
Definition tcp_outcome (attempt : result unit) : ProbeOutcome :=
  match attempt with
  | Ok _ => Open
  | Raise (ConnectionRefusedError _) => Closed
  | Raise (AsyncTimeoutError _) => Timeout
  | Raise e => Error (str_of_exn e)
  end.

(** The classification the design gives for the wait of a UDP probe: a
    datagram, nothing before the deadline, a failure reported by the
    network stack. *)
Definition udp_outcome (received : result string) : ProbeOutcome :=
  match received with
  | Ok _ => Open
  | Raise (SocketTimeout _) => NoResponse
  | Raise e => Error (str_of_exn e)
  end.

(** The fallback chain of the design for the source address: the local
    endpoint of the probe socket if obtainable, else the bind address when
    one was given, else the address found by the UDP connect, else
    the placeholder. [chain_from_bind] is the chain without its first link. *)
Definition chain_from_bind (bind_ip : option string) (heuristic : result string) : string :=
  match bind_ip with
  | Some (String _ _ as b) => b
  | _ =>
      match heuristic with
      | Ok ip => ip
      | Raise _ => "unknown"
      end
  end.

Definition fallback_chain (endpoint : result string) (bind_ip : option string)
    (heuristic : result string) : string :=
  match endpoint with
  | Ok ip => ip
  | Raise _ => chain_from_bind bind_ip heuristic
  end.

(** The first component of the tuple a probe returns. *)
Definition source_address (r : result probe_tuple) : option string :=
  match r with
  | Ok (src_ip, _, _, _, _) => Some src_ip
  | Raise _ => None
  end.

(** The fourth component of the tuple a probe returns. *)
Definition status_of (r : result probe_tuple) : option string :=
  match r with
  | Ok (_, _, _, status, _) => Some status
  | Raise _ => None
  end.

(** A network for examples: the probe socket can be created and
    configured, and the remaining answers are the arguments. *)
Definition net_with (resolved : result string) (bound connected : result unit)
    (endpoint : result string) (sent : result unit) (received : result string)
    (heuristic : result string) : net :=
  {| gethostbyname := fun _ => resolved;
     socket_new := Ok tt;
     setblocking := Ok tt;
     settimeout := Ok tt;
     bind := fun _ => bound;
     sock_connect := fun _ _ => connected;
     connect := fun _ _ => connected;
     getsockname := endpoint;
     send := sent;
     recv := received;
     close := Ok tt;
     aux_socket := Ok tt;
     aux_connect := fun _ _ => Ok tt;
     aux_getsockname := heuristic;
     aux_close := Ok tt;
     elapsed_ms := 12 |}.

(** A bind address that cannot be bound, a connect that times out, and a
    socket that knows its local endpoint. *)
Definition net_timeout_unbound : net :=
  net_with (Ok "192.0.2.7") (Raise (OSError "Cannot assign requested address"))
    (Raise (AsyncTimeoutError "")) (Ok "192.168.1.10") (Ok tt)
    (Raise (SocketTimeout "timed out")) (Ok "192.168.1.10").

(** A host name that does not resolve: [gethostbyname] fails, and so does
    every connect given the name, the one of [local_ip_for_target]
    included; a socket that never connected has no local address. *)
Definition net_unresolvable : net :=
  {| gethostbyname := fun _ => Raise (OSError "[Errno -2] Name or service not known");
     socket_new := Ok tt;
     setblocking := Ok tt;
     settimeout := Ok tt;
     bind := fun _ => Ok tt;
     sock_connect := fun _ _ => Raise (OSError "[Errno -2] Name or service not known");
     connect := fun _ _ => Raise (OSError "[Errno -2] Name or service not known");
     getsockname := Ok "0.0.0.0";
     send := Raise (OSError "[Errno 89] Destination address required");
     recv := Raise (SocketTimeout "timed out");
     close := Ok tt;
     aux_socket := Ok tt;
     aux_connect := fun _ _ => Raise (OSError "[Errno -2] Name or service not known");
     aux_getsockname := Ok "0.0.0.0";
     aux_close := Ok tt;
     elapsed_ms := 12 |}.

(** No route to the destination: every connect to it fails at once with
    ENETUNREACH, the one of [local_ip_for_target] included. *)
Definition net_unreachable : net :=
  {| gethostbyname := fun host => Ok host;
     socket_new := Ok tt;
     setblocking := Ok tt;
     settimeout := Ok tt;
     bind := fun _ => Ok tt;
     sock_connect := fun _ _ => Raise (OSError "[Errno 101] Network is unreachable");
     connect := fun _ _ => Raise (OSError "[Errno 101] Network is unreachable");
     getsockname := Ok "0.0.0.0";
     send := Raise (OSError "[Errno 89] Destination address required");
     recv := Raise (SocketTimeout "timed out");
     close := Ok tt;
     aux_socket := Ok tt;
     aux_connect := fun _ _ => Raise (OSError "[Errno 101] Network is unreachable");
     aux_getsockname := Ok "0.0.0.0";
     aux_close := Ok tt;
     elapsed_ms := 1 |}.

(** A peer that answers nothing. *)
Definition net_silent : net :=
  net_with (Ok "192.0.2.7") (Ok tt) (Ok tt) (Ok "192.168.1.10") (Ok tt)
    (Raise (SocketTimeout "timed out")) (Ok "192.168.1.10").

End Probe.

(** ** worker, run_checks, main *)

Module Executor.
Import PyStr Tasks Probe.

(** The dictionary appended to [results]. *)
Record record : Type := {
  src : string;
  dst : string;
  port : Z;
  proto : string;
  status : string;
  elapsed : Z
}.

(** Where a worker coroutine stands: before [get_nowait], suspended in the
    probe of the task it claimed as the [k]-th claim, or returned. *)
Inductive wstate : Type :=
| Ready
| Probing (k : nat) (t : Task)
| Finished.

(** The objects the workers share. *)
Record state : Type := {
  queue : list Task;
  results : list record;
  workers : list wstate;
  claimed : nat
}.

(** The body of the loop of [worker] from the dispatch on [prot] to the
    dictionary. *)
Definition probe (w : net) (bind_ip : option string) (t : Task) : result record :=
  let '(host, port, prot) := t in
  tup ← (if String.eqb prot "tcp" then tcp_check w host port bind_ip
         else udp_check w host port bind_ip);
  let '(src_ip, dst_ip, prt, status, elapsed) := tup in
  Ok {| src := src_ip; dst := dst_ip; port := prt; proto := prot;
        status := status; elapsed := elapsed |}.

Section Run.
(** [world k] is what the network answers to the probe claimed [k]-th;
    [sched n] picks which runnable coroutine the event loop resumes at
    step [n]. *)
Variable world : nat -> net.
Variable sched : nat -> nat.
Variable bind_ip : option string.

(** Worker [i] runs until its next suspension point. An exception of the
    probe leaves the coroutine and is what [gather] re-raises. *)
Definition step (st : state) (i : nat) : result state :=
  match workers st !! i with
  | Some Ready =>
      match queue st with
      | [] =>
          Ok {| queue := []; results := results st;
                workers := <[i := Finished]> (workers st); claimed := claimed st |}
      | t :: q =>
          Ok {| queue := q; results := results st;
                workers := <[i := Probing (claimed st) t]> (workers st);
                claimed := S (claimed st) |}
      end
  | Some (Probing k t) =>
      r ← probe (world k) bind_ip t;
      Ok {| queue := queue st; results := results st ++ [r];
            workers := <[i := Ready]> (workers st); claimed := claimed st |}
  | _ => Ok st
  end.

Definition is_runnable (ws : wstate) : bool :=
  match ws with
  | Finished => false
  | _ => true
  end.

(** Indices of the coroutines that have not returned. *)
Definition runnable (ws : list wstate) : list nat :=
  List.filter (fun i => from_option is_runnable false (ws !! i)) (seq 0 (length ws)).

(** [await asyncio.gather] over the workers: [None] when [fuel] steps
    were not enough. *)
Fixpoint gather (fuel : nat) (n : nat) (st : state) : option (result (list record)) :=
  let rs := runnable (workers st) in
  match rs with
  | [] => Some (Ok (results st))
  | i0 :: _ =>
      match fuel with
      | O => None
      | S fuel' =>
          match step st (nth (sched n mod length rs) rs i0) with
          | Ok st' => gather fuel' (S n) st'
          | Raise e => Some (Raise e)
          end
      end
  end.

(** [range(min(concurrency, max(1, len(tasks_tuples))))] *)
Definition worker_range (concurrency : Z) (tasks_tuples : list Task) : list Z :=
  range 0 (Z.min concurrency (Z.max 1 (Z.of_nat (length tasks_tuples)))).

Definition init (tasks_tuples : list Task) (concurrency : Z) : state :=
  {| queue := tasks_tuples; results := [];
     workers := (fun _ => Ready) <$> worker_range concurrency tasks_tuples;
     claimed := 0 |}.

(** Steps after which every worker has returned. *)
Definition enough (st : state) : nat :=
  3 * length (queue st) + 2 * length (workers st).

(** [run_checks] after [make_tasks]. *)
Definition run_tasks (tasks_tuples : list Task) (concurrency : Z)
  : option (result (list record)) :=
  let st := init tasks_tuples concurrency in
  gather (enough st) 0 st.

Definition run_checks (hosts : list string) (ports : list Z) (proto : string)
    (concurrency : Z) : option (result (list record)) :=
  run_tasks (make_tasks hosts ports proto) concurrency.

(** The loop a single worker amounts to: the tasks probed one after the
    other, the [k]-th claim first, up to the first probe that raises. *)
Fixpoint probe_in_order (ts : list Task) (k : nat) : result (list record) :=
  match ts with
  | [] => Ok []
  | t :: q =>
      r ← probe (world k) bind_ip t;
      rs ← probe_in_order q (S k);
      Ok (r :: rs)
  end.

(** The states the shared objects go through, whatever the scheduling. *)
Inductive reachable (tasks_tuples : list Task) (concurrency : Z) : state -> Prop :=
| reach_init : reachable tasks_tuples concurrency (init tasks_tuples concurrency)
| reach_step (st st' : state) (i : nat) :
    reachable tasks_tuples concurrency st ->
    step st i = Ok st' ->
    reachable tasks_tuples concurrency st'.
End Run.

(** *** Bookkeeping for the proofs *)

(** The claim number of the task a coroutine is probing, if any. *)
Definition probing_of (ws : wstate) : list nat :=
  match ws with
  | Probing k _ => [k]
  | _ => []
  end.

(** The claims whose probe is under way. *)
Definition in_flight (ws : list wstate) : list nat := flat_map probing_of ws.

(** Steps a coroutine still takes at least before it returns. *)
Definition weight (ws : wstate) : nat :=
  match ws with
  | Ready => 1
  | Probing _ _ => 2
  | Finished => 0
  end.

Definition load (ws : list wstate) : nat := sum_list_with weight ws.

(** Strictly decreases at every step of a runnable coroutine. *)
Definition measure (st : state) : nat :=
  (3 * length (queue st) + load (workers st))%nat.

Section Invariant.
Variable world : nat -> net.
Variable bind_ip : option string.
Variable tasks : list Task.

(** [r] is the record of the probe of the task at position [k]. *)
Definition recorded (k : nat) (r : record) : Prop :=
  exists t, tasks !! k = Some t /\ probe (world k) bind_ip t = Ok r.

(** The record of the probe of the task at position [k], if it has one. *)
Definition record_at (k : nat) : option record :=
  match tasks !! k with
  | Some t =>
      match probe (world k) bind_ip t with
      | Ok r => Some r
      | Raise _ => None
      end
  | None => None
  end.

(** What holds between two steps: [done] lists, in the order of [results],
    the positions of the tasks whose record is there. *)
Record inv (st : state) (done : list nat) : Prop := {
  inv_queue : queue st = drop (claimed st) tasks;
  inv_claimed : (claimed st <= length tasks)%nat;
  inv_results : Forall2 recorded done (results st);
  inv_perm : done ++ in_flight (workers st) ≡ₚ seq 0 (claimed st);
  inv_probing : forall i k t, workers st !! i = Some (Probing k t) -> tasks !! k = Some t;
  inv_finished : forall i, workers st !! i = Some Finished -> queue st = []
}.
End Invariant.

Arguments inv_queue {world bind_ip tasks st done} _.
Arguments inv_claimed {world bind_ip tasks st done} _.
Arguments inv_results {world bind_ip tasks st done} _.
Arguments inv_perm {world bind_ip tasks st done} _.
Arguments inv_probing {world bind_ip tasks st done} _ _ _ _ _.
Arguments inv_finished {world bind_ip tasks st done} _ _ _.

End Executor.

Module Main.
Import PyStr.

(** The namespace returned by [parse_args], restricted to the attributes
    that reach the probing: [timeout] only parameterises the socket calls
    whose outcomes [Probe.net] records, and [output], [format] and
    [verbose] only concern printing. *)
Record args : Type := {
  targets : option string;
  targets_file : option string;
  ports : string;
  proto : string;
  concurrency : Z;
  bind : option string
}.

Section Main.
Context {ip : Type} (ip_address : string -> option ip).
Variable open_lines : string -> result (list string).
Variable world : nat -> Probe.net.
Variable sched : nat -> nat.

(** The [if args.targets: ... else: ...] at the head of [main]. *)
Definition read_hosts (a : args) : result (list string) :=
  match targets a with
  | Some t =>
      if truthy t then Ok (Hosts.split_targets t)
      else Hosts.expand_targets_from_file open_lines (targets_file a)
  | None => Hosts.expand_targets_from_file open_lines (targets_file a)
  end.

(** [main] up to the call of [write_output]: the value is the list that
    [write_output] receives, or the exception that leaves [main]. *)
Definition main (a : args) : option (result (list Executor.record)) :=
  match read_hosts a with
  | Raise e => Some (Raise e)
  | Ok hosts =>
      let hosts := Hosts.validate_hosts ip_address hosts in
      match Ports.parse_ports (ports a) with
      | Raise e => Some (Raise e)
      | Ok ports =>
          Executor.run_checks world sched (bind a) hosts ports (proto a) (concurrency a)
      end
  end.
End Main.

(** The namespace of [--targets , --ports 80]. *)
Definition args_no_hosts : args :=
  {| targets := Some ","; targets_file := None; ports := "80"; Main.proto := "tcp";
     concurrency := 200; bind := None |}.

(** The namespace of [--targets 127.0.0.1 --ports ,]. *)
Definition args_no_ports : args :=
  {| targets := Some "127.0.0.1"; targets_file := None; ports := ","; Main.proto := "both";
     concurrency := 200; bind := None |}.

(** The namespace of [--targets 10.0.0.1,10.0.0.2 --ports 22,443]. *)
Definition args_two_hosts : args :=
  {| targets := Some "10.0.0.1,10.0.0.2"; targets_file := None; ports := "22,443";
     Main.proto := "tcp"; concurrency := 2; bind := None |}.

(** The namespace of [--targets 10.0.0.1 --ports 22,abc]. *)
Definition args_bad_ports : args :=
  {| targets := Some "10.0.0.1"; targets_file := None; ports := "22,abc";
     Main.proto := "tcp"; concurrency := 2; bind := None |}.

(** A hosts file with a comment line, a commented entry, an empty line
    and a plain entry. *)
Definition sample_file (path : string) : result (list string) :=
  Ok ["# hosts"; " 10.0.0.1  # core"; ""; "db.example.com"].

(** No file can be opened, and no host is an address literal. *)
Definition no_file (path : string) : result (list string) :=
  Raise (OSError "No such file or directory").

Definition no_literal (h : string) : option unit := None.

End Main.

(** * Properties *)

(** ** Hosts *)

Section HostsFacts.
Import PyStr Hosts.
Context {ip : Type} (ip_address : string -> option ip).

Lemma validate_loop_spec (hosts out : list string) :
  validate_loop ip_address out hosts = out ++ List.filter truthy (strip <$> hosts).
Proof.
  revert out; induction hosts as [|h rest IH]; intros out; simpl.
  - by rewrite app_nil_r.
  - destruct (truthy (strip h)) eqn:E; simpl.
    + destruct (ip_address (strip h)); rewrite IH, <- app_assoc; reflexivity.
    + apply IH.
Qed.

(** C10. [validate_hosts] returns the stripped entries that are not empty,
    in their order, whatever [ipaddress.ip_address] says about them: an
    entry that is not an IP address literal is kept as it is. *)
Theorem validate_hosts_rejects_nothing (hosts : list string) :
  validate_hosts ip_address hosts = List.filter truthy (strip <$> hosts)
  /\ (forall h : string, In h hosts -> truthy (strip h) = true ->
        ip_address (strip h) = None -> In (strip h) (validate_hosts ip_address hosts)).
Proof.
  assert (E : validate_hosts ip_address hosts = List.filter truthy (strip <$> hosts))
    by apply (validate_loop_spec hosts []).
  split; [exact E|].
  intros h Hin Ht _. rewrite E. apply filter_In. split; [|exact Ht].
  apply in_map_iff. by exists h.
Qed.
End HostsFacts.

(** ** Tasks *)

Section TasksFacts.
Import Tasks.

Lemma add_tasks_app proto h tasks p :
  add_tasks proto h tasks p = tasks ++ pair_tasks proto h p.
Proof.
  unfold add_tasks, pair_tasks.
  destruct (in_pair proto "tcp" "both"), (in_pair proto "udp" "both"); simpl;
    rewrite <- ?app_assoc, ?app_nil_r; reflexivity.
Qed.

Lemma ports_loop_app proto h ports tasks :
  fold_left (add_tasks proto h) ports tasks
  = tasks ++ flat_map (pair_tasks proto h) ports.
Proof.
  revert tasks; induction ports as [|p ports IH]; intros tasks; simpl.
  - by rewrite app_nil_r.
  - rewrite IH, add_tasks_app, <- app_assoc. reflexivity.
Qed.

Lemma hosts_loop_app proto ports hosts tasks :
  fold_left (fun tasks h => fold_left (add_tasks proto h) ports tasks) hosts tasks
  = tasks ++ flat_map (fun h => flat_map (pair_tasks proto h) ports) hosts.
Proof.
  revert tasks; induction hosts as [|h hosts IH]; intros tasks; simpl.
  - by rewrite app_nil_r.
  - rewrite IH, ports_loop_app, <- app_assoc. reflexivity.
Qed.

Lemma make_tasks_flat hosts ports proto :
  make_tasks hosts ports proto
  = flat_map (fun h => flat_map (pair_tasks proto h) ports) hosts.
Proof. unfold make_tasks. by rewrite hosts_loop_app. Qed.

(** Blocks of equal length: the [j]-th element of the [i]-th block. *)
Lemma flat_map_block {A B} (f : A -> list B) (k : nat) (l : list A) :
  (forall a, length (f a) = k) ->
  forall (i j : nat) (x : A), l !! i = Some x -> (j < k)%nat ->
    flat_map f l !! (i * k + j)%nat = f x !! j.
Proof.
  intros Hk. induction l as [|a l IH]; intros i j x Hi Hj; [done|].
  destruct i as [|i]; simpl in *.
  - inversion Hi; subst. apply lookup_app_l. by rewrite Hk.
  - rewrite lookup_app_r by (rewrite Hk; lia).
    rewrite Hk. replace (k + i * k + j - k)%nat with (i * k + j)%nat by lia.
    by apply IH.
Qed.

Lemma flat_map_block_length {A B} (f : A -> list B) (k : nat) (l : list A) :
  (forall a, length (f a) = k) -> length (flat_map f l) = (length l * k)%nat.
Proof.
  intros Hk. induction l as [|a l IH]; simpl; [done|].
  rewrite length_app, Hk, IH. lia.
Qed.

Lemma make_tasks_length hosts ports proto (k : nat) :
  (forall h p, length (pair_tasks proto h p) = k) ->
  length (make_tasks hosts ports proto) = (k * length hosts * length ports)%nat.
Proof.
  intros Hk. rewrite make_tasks_flat.
  rewrite (flat_map_block_length _ (length ports * k)).
  - lia.
  - intros h. by apply flat_map_block_length.
Qed.

Lemma make_tasks_lookup hosts ports proto (k : nat) :
  (forall h p, length (pair_tasks proto h p) = k) ->
  forall (i j b : nat) (h : string) (p : Z),
    hosts !! i = Some h -> ports !! j = Some p -> (b < k)%nat ->
    make_tasks hosts ports proto !! (k * (i * length ports + j) + b)%nat
    = pair_tasks proto h p !! b.
Proof.
  intros Hk i j b h p Hi Hj Hb. rewrite make_tasks_flat.
  replace (k * (i * length ports + j) + b)%nat
    with (i * (length ports * k) + (j * k + b))%nat by lia.
  rewrite (flat_map_block _ (length ports * k) hosts) with (x := h); [| |done|].
  - by apply flat_map_block.
  - intros a. by apply flat_map_block_length.
  - apply lookup_lt_Some in Hj. nia.
Qed.

(** C4. [make_tasks] lists the tasks host by host and, within a host, port
    by port. With ["both"] every (host, port) pair gives its TCP task
    immediately followed by its UDP task, 2 * |hosts| * |ports| tasks in
    all; with ["tcp"] or ["udp"] every pair gives one task,
    |hosts| * |ports| in all. *)
Theorem make_tasks_host_major_port_minor (hosts : list string) (ports : list Z) :
  (make_tasks hosts ports "both"
     = flat_map (fun h => flat_map (fun p => [(h, p, "tcp"); (h, p, "udp")]) ports) hosts
   /\ make_tasks hosts ports "tcp"
     = flat_map (fun h => flat_map (fun p => [(h, p, "tcp")]) ports) hosts
   /\ make_tasks hosts ports "udp"
     = flat_map (fun h => flat_map (fun p => [(h, p, "udp")]) ports) hosts)
  /\ (length (make_tasks hosts ports "both") = 2 * length hosts * length ports
      /\ length (make_tasks hosts ports "tcp") = length hosts * length ports
      /\ length (make_tasks hosts ports "udp") = length hosts * length ports)%nat
  /\ (forall (i j : nat) (h : string) (p : Z),
        hosts !! i = Some h -> ports !! j = Some p ->
        make_tasks hosts ports "both" !! (2 * (i * length ports + j))%nat
          = Some (h, p, "tcp")
        /\ make_tasks hosts ports "both" !! (2 * (i * length ports + j) + 1)%nat
          = Some (h, p, "udp")
        /\ make_tasks hosts ports "tcp" !! (i * length ports + j)%nat
          = Some (h, p, "tcp")
        /\ make_tasks hosts ports "udp" !! (i * length ports + j)%nat
          = Some (h, p, "udp")).
Proof.
  split; [|split].
  - rewrite !make_tasks_flat. done.
  - rewrite (make_tasks_length _ _ "both" 2), (make_tasks_length _ _ "tcp" 1),
      (make_tasks_length _ _ "udp" 1) by done. lia.
  - intros i j h p Hi Hj. repeat split.
    + pose proof (make_tasks_lookup hosts ports "both" 2 ltac:(done) i j 0 h p Hi Hj) as E.
      rewrite Nat.add_0_r in E. apply E. lia.
    + apply (make_tasks_lookup hosts ports "both" 2 ltac:(done) i j 1 h p Hi Hj). lia.
    + pose proof (make_tasks_lookup hosts ports "tcp" 1 ltac:(done) i j 0 h p Hi Hj) as E.
      rewrite Nat.add_0_r, Nat.mul_1_l in E. apply E. lia.
    + pose proof (make_tasks_lookup hosts ports "udp" 1 ltac:(done) i j 0 h p Hi Hj) as E.
      rewrite Nat.add_0_r, Nat.mul_1_l in E. apply E. lia.
Qed.
End TasksFacts.

(** ** Ports *)

Section PortsFacts.
Import PyStr Ports.

Lemma split1_two_contains sep s a b :
  split1 sep s = [a; b] -> contains sep s = true.
Proof.
  revert a b; induction s as [|c s IH]; intros a b; simpl; [done|].
  destruct (Ascii.eqb c sep); [done|]. simpl.
  destruct (split1 sep s) as [|w [|b' [|]]] eqn:E; try done.
  intros _. by apply (IH w b').
Qed.

Lemma range_lookup lo hi (i : nat) z :
  range lo (hi + 1) !! i = Some z <-> z = lo + Z.of_nat i /\ z <= hi.
Proof. unfold range. rewrite lookup_seqZ. lia. Qed.

Lemma expand_loop_mapM ps out :
  expand_loop out ps = ls ← mapM expand_part ps; Ok (out ++ concat ls).
Proof.
  revert out; induction ps as [|part ps IH]; intros out; simpl.
  - by rewrite app_nil_r.
  - destruct (expand_part part) as [more|e]; simpl; [|done].
    rewrite IH. destruct (mapM expand_part ps) as [ls|e]; simpl; [|done].
    by rewrite <- app_assoc.
Qed.

Lemma uniq_loop_elem seen out p :
  p ∈ uniq_loop seen out <-> p ∈ out /\ p ∉ seen.
Proof.
  revert seen; induction out as [|x out IH]; intros seen; simpl.
  - rewrite !elem_of_nil. tauto.
  - destruct (decide (x ∈ seen)) as [Hx|Hx].
    + rewrite IH, elem_of_cons. split; [tauto|].
      intros [[->|?] ?]; [done|tauto].
    + rewrite !elem_of_cons, IH. split.
      * intros [->|[? Hn]]; [tauto|]. split; [tauto|]. set_solver.
      * intros [[->|?] ?]; [tauto|]. destruct (decide (p = x)) as [->|]; [tauto|].
        right. split; [done|]. set_solver.
Qed.

Lemma uniq_loop_NoDup seen out : NoDup (uniq_loop seen out).
Proof.
  revert seen; induction out as [|x out IH]; intros seen; simpl.
  - constructor.
  - destruct (decide (x ∈ seen)); [apply IH|].
    apply NoDup_cons. split; [|apply IH].
    rewrite uniq_loop_elem. set_solver.
Qed.

(** Two ports kept at positions [i < j]: the first is met in [out] before
    any occurrence of the second. *)
Lemma uniq_loop_order seen out (i j : nat) p q :
  uniq_loop seen out !! i = Some p -> uniq_loop seen out !! j = Some q -> (i < j)%nat ->
  exists k : nat, out !! k = Some p /\ q ∉ take (S k) out.
Proof.
  revert seen i j; induction out as [|x out IH]; intros seen i j; simpl; [done|].
  destruct (decide (x ∈ seen)) as [Hx|Hx].
  - intros Hi Hj Hlt. destruct (IH seen i j Hi Hj Hlt) as (k & Hk & Hq).
    exists (S k). split; [done|]. rewrite elem_of_cons. intros [->|?]; [|done].
    apply list_elem_of_lookup_2, uniq_loop_elem in Hj. tauto.
  - intros Hi Hj Hlt. destruct j as [|j]; [lia|]. simpl in Hj.
    assert (q <> x) as Hqx.
    { apply list_elem_of_lookup_2, uniq_loop_elem in Hj. set_solver. }
    destruct i as [|i]; simpl in Hi.
    + inversion Hi; subst. exists 0%nat. split; [done|].
      simpl. rewrite take_0. set_solver.
    + destruct (IH _ i j Hi Hj ltac:(lia)) as (k & Hk & Hq).
      exists (S k). split; [done|]. rewrite elem_of_cons. tauto.
Qed.

(** C7. [parse_ports] expands a range a-b to every port from a to b, both
    ends included and in increasing order, keeps one copy of every port and
    keeps the ports in the order of their first occurrence; "9,10-12" gives
    [9, 10, 11, 12]. *)
Theorem parse_ports_ranges_inclusive_first_seen :
  parse_ports "9,10-12" = Ok [9; 10; 11; 12]
  /\ (forall part a b x y,
        split1 "-" part = [a; b] -> int a = Ok x -> int b = Ok y ->
        exists l, expand_part part = Ok l
          /\ forall (i : nat) z, l !! i = Some z <-> z = x + Z.of_nat i /\ z <= y)
  /\ (forall part x,
        contains "-" part = false -> int part = Ok x -> expand_part part = Ok [x])
  /\ (forall portspec ls,
        mapM expand_part (parts portspec) = Ok ls ->
        exists ports, parse_ports portspec = Ok ports
          /\ NoDup ports
          /\ (forall p, p ∈ ports <-> p ∈ concat ls)
          /\ (forall (i j : nat) p q,
                ports !! i = Some p -> ports !! j = Some q -> (i < j)%nat ->
                exists k : nat, concat ls !! k = Some p /\ q ∉ take (S k) (concat ls))).
Proof.
  split; [vm_compute; reflexivity|]. split; [|split].
  - intros part a b x y Hs Ha Hb. exists (range x (y + 1)). split.
    + unfold expand_part. rewrite (split1_two_contains _ _ _ _ Hs), Hs, Ha. simpl.
      rewrite Hb. reflexivity.
    + intros i z. apply range_lookup.
  - intros part x Hc Hx. unfold expand_part. rewrite Hc, Hx. reflexivity.
  - intros portspec ls Hls. exists (uniq_loop ∅ (concat ls)).
    unfold parse_ports. rewrite expand_loop_mapM, Hls. simpl.
    split; [done|]. split; [apply uniq_loop_NoDup|]. split.
    + intros p. rewrite uniq_loop_elem. set_solver.
    + intros i j p q. apply uniq_loop_order.
Qed.
End PortsFacts.

(** ** Probes *)

Section ProbeFacts.
Import PyStr Tasks Probe.


Lemma try_bind_ok w bind_ip : try_bind w bind_ip = Ok tt.
Proof.
  unfold try_bind. destruct bind_ip as [b|]; [|done].
  destruct (truthy b); [|done]. by destruct (bind w b) as [[]|].
Qed.


Lemma or_else_chain w bind_ip dst_ip :
  or_else bind_ip (local_ip_for_target w dst_ip)
  = chain_from_bind bind_ip (local_ip_try w dst_ip).
Proof. unfold or_else, chain_from_bind, local_ip_for_target. by destruct bind_ip as [[|c b]|]. Qed.

(** What [tcp_check] returns, by the outcome of the connection attempt. *)
Lemma tcp_check_cases w host port bind_ip :
  let dst_ip := resolve_host w host in
  tcp_check w host port bind_ip
  = Ok (match tcp_attempt w dst_ip port bind_ip with
        | Ok _ => fallback_chain (getsockname w) bind_ip (local_ip_try w dst_ip)
        | Raise _ => chain_from_bind bind_ip (local_ip_try w dst_ip)
        end,
        dst_ip, port,
        status_text (tcp_outcome (tcp_attempt w dst_ip port bind_ip)),
        elapsed_ms w).
Proof.
  intros dst_ip. unfold tcp_check, tcp_try. fold dst_ip.
  destruct (tcp_attempt w dst_ip port bind_ip) as [[]|e]; simpl.
  - unfold source_of_socket, fallback_chain.
    destruct (getsockname w); simpl; by rewrite ?or_else_chain.
  - unfold tcp_except. rewrite or_else_chain. by destruct e.
Qed.


(** What [tcp_check] reports as source, by the outcome of the attempt:
    after a successful connect the local endpoint of the socket if
    obtainable, else the bind address when given, else the address found by
    the helper UDP connect, else "unknown"; after a failed attempt the same
    chain without its first link, the socket not being asked. *)
Lemma tcp_check_source_address (w : net) (host : string) (port : Z)
    (bind_ip : option string) :
  (tcp_attempt w (resolve_host w host) port bind_ip = Ok tt ->
   source_address (tcp_check w host port bind_ip)
   = Some (fallback_chain (getsockname w) bind_ip (local_ip_try w (resolve_host w host))))
  /\ (forall e, tcp_attempt w (resolve_host w host) port bind_ip = Raise e ->
      source_address (tcp_check w host port bind_ip)
      = Some (chain_from_bind bind_ip (local_ip_try w (resolve_host w host)))).
Proof.
  rewrite tcp_check_cases. simpl. split.
  - by intros ->.
  - by intros e ->.
Qed.

(** C9, at its failing input. The bind address 10.9.9.9 cannot be bound
    (the failure is swallowed) and the connect times out: the socket has
    the local endpoint 192.168.1.10, which the chain of the design and the
    success path report, yet the record carries 10.9.9.9, an address the
    socket never had, because the [except] clauses do not ask the socket. *)
Lemma tcp_check_source_not_socket_endpoint :
  source_address (tcp_check net_timeout_unbound "192.0.2.7" 443 (Some "10.9.9.9"))
    = Some "10.9.9.9"
  /\ status_of (tcp_check net_timeout_unbound "192.0.2.7" 443 (Some "10.9.9.9"))
    = Some "timeout"
  /\ fallback_chain (getsockname net_timeout_unbound) (Some "10.9.9.9")
       (local_ip_try net_timeout_unbound "192.0.2.7") = "192.168.1.10"
  /\ ~ (forall w host port bind_ip,
          source_address (tcp_check w host port bind_ip)
          = Some (fallback_chain (getsockname w) bind_ip
                    (local_ip_try w (resolve_host w host)))).
Proof.
  split; [reflexivity|]. split; [reflexivity|]. split; [reflexivity|].
  intros H. specialize (H net_timeout_unbound "192.0.2.7" 443 (Some "10.9.9.9")).
  vm_compute in H. discriminate.
Qed.

Lemma udp_outcome_cases (received : result string) :
  udp_outcome received = Open \/ udp_outcome received = NoResponse
  \/ exists d, udp_outcome received = Error d.
Proof.
  destruct received as [data|e]; [by left|].
  destruct e; simpl; eauto.
Qed.

Lemma udp_status_text w :
  (forall e, recv w = Raise e -> is_OSError e = true) ->
  udp_status w = Ok (status_text (udp_outcome (recv w))).
Proof.
  intros Hos. unfold udp_status.
  destruct (recv w) as [data|e]; [done|].
  specialize (Hos e eq_refl). by destruct e.
Qed.

Lemma udp_status_inv w status :
  udp_status w = Ok status -> status = status_text (udp_outcome (recv w)).
Proof.
  unfold udp_status. destruct (recv w) as [data|e]; [by intros [= <-]|].
  destruct e; simpl; intros [= <-]; reflexivity.
Qed.

(** When [udp_probe_sync] returns, the socket was created and closed
    without error and the tuple is the one of the [try] block. *)
Lemma udp_probe_returns_inv w host port bind_ip (tup : probe_tuple) :
  udp_probe_sync w host port bind_ip = Ok tup ->
  socket_new w = Ok tt /\ close w = Ok tt
  /\ udp_try w (resolve_host w host) port bind_ip = Ok tup.
Proof.
  unfold udp_probe_sync, try_finally.
  destruct (socket_new w) as [[]|]; simpl; [|done].
  by destruct (close w) as [[]|].
Qed.

Lemma udp_try_status w dst_ip port bind_ip src_ip dst_ip' prt status el :
  udp_try w dst_ip port bind_ip = Ok (src_ip, dst_ip', prt, status, el) ->
  status = status_text (udp_outcome (recv w)).
Proof.
  unfold udp_try.
  destruct (settimeout w) as [[]|]; simpl; [|done].
  rewrite try_bind_ok; simpl.
  destruct (connect w _ port) as [[]|]; simpl; [|done].
  destruct (source_of_socket w bind_ip _) as [s0|]; simpl; [|done].
  destruct (send w) as [[]|]; simpl; [|done].
  destruct (udp_status w) as [st|] eqn:Est; simpl; [|done].
  intros [= <- <- <- <- <-]. by apply udp_status_inv in Est.
Qed.

(** Whenever [udp_probe_sync] returns a tuple, its status is the text of
    the outcome of the wait: Open when a datagram was received, NoResponse
    when the wait timed out, Error with the text of the failure when the
    stack reported one at the wait; it is never Closed and never Timeout.
    The probe does return that tuple whenever the socket could be created,
    configured, connected, written to and closed, and the wait ended with
    data, a timeout or an [OSError]. *)
Theorem udp_probe_classifies (w : net) (host : string) (port : Z) (bind_ip : option string) :
  (forall src_ip dst_ip prt status el,
     udp_probe_sync w host port bind_ip = Ok (src_ip, dst_ip, prt, status, el) ->
     status = status_text (udp_outcome (recv w))
     /\ status <> "closed" /\ status <> "timeout")
  /\ (udp_outcome (recv w) = Open <-> exists data, recv w = Ok data)
  /\ (udp_outcome (recv w) = NoResponse <-> exists d, recv w = Raise (SocketTimeout d))
  /\ (socket_new w = Ok tt -> settimeout w = Ok tt ->
      connect w (resolve_host w host) port = Ok tt -> send w = Ok tt ->
      (forall e, recv w = Raise e -> is_OSError e = true) ->
      close w = Ok tt ->
      exists src_ip,
        udp_probe_sync w host port bind_ip
        = Ok (src_ip, resolve_host w host, port,
              status_text (udp_outcome (recv w)), elapsed_ms w)).
Proof.
  split; [|split; [|split]].
  - intros src_ip dst_ip prt status el (_ & _ & Htry)%udp_probe_returns_inv.
    apply udp_try_status in Htry as ->. split; [done|].
    destruct (udp_outcome_cases (recv w)) as [->|[->|[d ->]]]; by split.
  - destruct (recv w) as [data|e]; simpl; [by split; eauto|].
    split; [by destruct e|]. by intros [data ?].
  - destruct (recv w) as [data|e]; simpl; [split; [done|by intros [d ?]]|].
    destruct e; split; try done; try (by intros [d' ?]); eauto.
  - intros H1 H2 H3 H4 Hos H5. unfold udp_probe_sync, try_finally, udp_try.
    rewrite H1, H5, H2; simpl. rewrite try_bind_ok, H3; simpl.
    unfold source_of_socket.
    destruct (getsockname w) as [s0|]; simpl; rewrite H4; simpl;
      rewrite (udp_status_text w Hos); simpl; eauto.
Qed.

(** C5, at its failing input. With no route to the destination the network
    stack reports the delivery failure at [connect]: [udp_probe_sync]
    raises that [OSError], so the probe has no status at all, where the
    design asks for the outcome Error with the failure as detail (which is
    what the same failure gives when it is reported at the wait). *)
Lemma udp_probe_raises_on_delivery_failure :
  udp_probe_sync net_unreachable "203.0.113.9" 53 None
    = Raise (OSError "[Errno 101] Network is unreachable")
  /\ status_of (udp_probe_sync net_unreachable "203.0.113.9" 53 None) = None
  /\ status_text (udp_outcome (Raise (OSError "[Errno 101] Network is unreachable")))
     = "error:[Errno 101] Network is unreachable".
Proof. repeat split. Qed.

(** A UDP probe of a name that does not resolve raises the error of
    [connect] instead of returning a tuple. *)
Lemma udp_probe_sync_raises_unresolvable :
  udp_probe_sync net_unresolvable "no-such-host.invalid" 53 None
  = Raise (OSError "[Errno -2] Name or service not known").
Proof. reflexivity. Qed.
End ProbeFacts.

(** ** The executor *)

Section WorkersFacts.
Import Tasks Probe Executor.

Lemma runnable_lookup (ws : list wstate) (i : nat) :
  In i (runnable ws) <-> exists w0, ws !! i = Some w0 /\ is_runnable w0 = true.
Proof.
  unfold runnable. rewrite filter_In, in_seq. split.
  - intros [_ H]. destruct (ws !! i) as [w0|]; [|done]. by exists w0.
  - intros (w0 & Hi & Hr). rewrite Hi. split; [|done].
    apply lookup_lt_Some in Hi. lia.
Qed.

Lemma runnable_nil (ws : list wstate) :
  runnable ws = [] -> forall i w0, ws !! i = Some w0 -> w0 = Finished.
Proof.
  intros Hnil i w0 Hi. destruct w0; [| |done].
  - assert (In i (runnable ws)) as Hin by (apply runnable_lookup; eauto).
    by rewrite Hnil in Hin.
  - assert (In i (runnable ws)) as Hin by (apply runnable_lookup; eauto).
    by rewrite Hnil in Hin.
Qed.

Lemma picked_runnable (rs : list nat) (i0 x : nat) (tl : list nat) :
  rs = i0 :: tl -> In (nth (x mod length rs) rs i0) rs.
Proof.
  intros ->. apply nth_In. apply Nat.mod_upper_bound. simpl. lia.
Qed.

Lemma in_flight_insert (ws : list wstate) (i : nat) (old new : wstate) :
  ws !! i = Some old ->
  exists rest, in_flight ws ≡ₚ probing_of old ++ rest
            /\ in_flight (<[i := new]> ws) ≡ₚ probing_of new ++ rest.
Proof.
  intros Hi. exists (in_flight (take i ws) ++ in_flight (drop (S i) ws)).
  rewrite insert_take_drop by (by eapply lookup_lt_Some).
  rewrite <- (take_drop_middle ws i old Hi) at 1.
  unfold in_flight. rewrite !flat_map_app. simpl. split.
  - rewrite !app_assoc. apply Permutation_app_tail, Permutation_app_comm.
  - rewrite !app_assoc. apply Permutation_app_tail, Permutation_app_comm.
Qed.

Lemma load_insert (ws : list wstate) (i : nat) (old new : wstate) :
  ws !! i = Some old ->
  (load (<[i := new]> ws) + weight old = load ws + weight new)%nat.
Proof.
  unfold load. revert i; induction ws as [|w0 ws IH]; intros [|i] Hi; simpl in *; try done.
  - inversion Hi; subst. lia.
  - specialize (IH i Hi). lia.
Qed.

Lemma load_bound (ws : list wstate) : (load ws <= 2 * length ws)%nat.
Proof.
  unfold load. induction ws as [|w0 ws IH]; simpl; [lia|].
  destruct w0; simpl; lia.
Qed.

Lemma in_flight_finished (ws : list wstate) :
  (forall i w0, ws !! i = Some w0 -> w0 = Finished) -> in_flight ws = [].
Proof.
  induction ws as [|w0 ws IH]; intros H; [done|].
  unfold in_flight; simpl. rewrite (H 0%nat w0 eq_refl). simpl.
  apply IH. intros i w1 Hi. by apply (H (S i)).
Qed.
End WorkersFacts.

Section RunFacts.
Import Tasks Probe Executor.
Variable world : nat -> net.
Variable sched : nat -> nat.
Variable bind_ip : option string.
Variable tasks : list Task.

#[local] Abbreviation recorded := (Executor.recorded world bind_ip tasks).
#[local] Abbreviation inv := (Executor.inv world bind_ip tasks).

Lemma inv_init (concurrency : Z) : inv (init tasks concurrency) [].
Proof.
  split; simpl; try done.
  - lia.
  - unfold in_flight. induction (worker_range concurrency tasks); simpl; done.
  - intros i k t. rewrite list_lookup_fmap. by destruct (_ !! i).
  - intros i. rewrite list_lookup_fmap. by destruct (_ !! i).
Qed.

Lemma queue_head (st : state) (done : list nat) (t : Task) (q : list Task) :
  inv st done -> queue st = t :: q ->
  tasks !! claimed st = Some t /\ q = drop (S (claimed st)) tasks.
Proof.
  intros Hinv Hq. rewrite (inv_queue Hinv) in Hq.
  assert (tasks !! claimed st = Some t) as Ht.
  { rewrite <- (Nat.add_0_r (claimed st)), <- lookup_drop, Hq. done. }
  split; [done|]. rewrite (drop_S _ _ _ Ht) in Hq. congruence.
Qed.

Lemma step_inv (st st' : state) (done : list nat) (i : nat) :
  inv st done -> step world bind_ip st i = Ok st' ->
  length (workers st') = length (workers st) /\ exists done', inv st' done'.
Proof.
  intros Hinv. unfold step.
  destruct (workers st !! i) as [[|k t|]|] eqn:Hi; [| | |].
  - destruct (queue st) as [|t q] eqn:Hq; intros [= <-]; simpl;
      (split; [apply length_insert|]).
    + exists done. destruct Hinv as [Hqu Hcl Hres Hperm Hprob Hfin].
      destruct (in_flight_insert _ i Ready Finished Hi) as (rest & E1 & E2).
      split; cbn [queue results workers claimed]; try done.
      * by rewrite <- Hqu.
      * by rewrite E2, <- E1.
      * intros j k t Hj. destruct (decide (i = j)) as [->|Hne].
        -- rewrite list_lookup_insert_eq in Hj by (by eapply lookup_lt_Some). done.
        -- rewrite list_lookup_insert_ne in Hj by done. eauto.
    + exists done. destruct (queue_head _ _ _ _ Hinv Hq) as [Ht Hq'].
      destruct Hinv as [Hqu Hcl Hres Hperm Hprob Hfin].
      destruct (in_flight_insert _ i Ready (Probing (claimed st) t) Hi) as (rest & E1 & E2).
      split; cbn [queue results workers claimed]; try done.
      * by apply lookup_lt_Some in Ht.
      * rewrite E2, seq_S, <- Hperm, E1. simpl.
        rewrite <- Permutation_middle. apply Permutation_cons_append.
      * intros j k t' Hj. destruct (decide (i = j)) as [->|Hne].
        -- rewrite list_lookup_insert_eq in Hj by (by eapply lookup_lt_Some).
           by inversion Hj; subst.
        -- rewrite list_lookup_insert_ne in Hj by done. eauto.
      * intros j Hj. destruct (decide (i = j)) as [->|Hne].
        -- rewrite list_lookup_insert_eq in Hj by (by eapply lookup_lt_Some). done.
        -- rewrite list_lookup_insert_ne in Hj by done.
           specialize (Hfin j Hj). congruence.
  - destruct (probe (world k) bind_ip t) as [r|e] eqn:Hp; simpl; [|done].
    intros [= <-]; simpl. split; [apply length_insert|].
    exists (done ++ [k]). destruct Hinv as [Hqu Hcl Hres Hperm Hprob Hfin].
    destruct (in_flight_insert _ i (Probing k t) Ready Hi) as (rest & E1 & E2).
    split; cbn [queue results workers claimed]; try done.
    + apply Forall2_app; [done|]. constructor; [|constructor].
      exists t. split; [by eapply Hprob|done].
    + rewrite E2. simpl. rewrite <- Hperm, E1. simpl. by rewrite <- app_assoc.
    + intros j k' t' Hj. destruct (decide (i = j)) as [->|Hne].
      * rewrite list_lookup_insert_eq in Hj by (by eapply lookup_lt_Some). done.
      * rewrite list_lookup_insert_ne in Hj by done. eauto.
    + intros j Hj. destruct (decide (i = j)) as [->|Hne].
      * rewrite list_lookup_insert_eq in Hj by (by eapply lookup_lt_Some). done.
      * rewrite list_lookup_insert_ne in Hj by done. eauto.
  - intros [= <-]. eauto.
  - intros [= <-]. eauto.
Qed.

Lemma runnable_weight (ws : list wstate) (i : nat) :
  In i (runnable ws) -> (1 <= load ws)%nat.
Proof.
  intros (w0 & Hi & Hr)%runnable_lookup.
  apply list_elem_of_lookup_2, (sum_list_with_in _ weight) in Hi.
  unfold load. destruct w0; simpl in *; (done || lia).
Qed.

Lemma step_measure (st st' : state) (i : nat) :
  In i (runnable (workers st)) -> step world bind_ip st i = Ok st' ->
  (measure st' < measure st)%nat.
Proof.
  intros (w0 & Hi & Hr)%runnable_lookup. unfold step, measure. rewrite Hi.
  destruct w0 as [|k t|]; [| |done].
  - destruct (queue st) as [|t q]; intros [= <-]; simpl.
    + pose proof (load_insert _ i Ready Finished Hi). simpl in *. lia.
    + pose proof (load_insert _ i Ready (Probing (claimed st) t) Hi). simpl in *. lia.
  - destruct (probe (world k) bind_ip t); simpl; [|done]. intros [= <-]; simpl.
    pose proof (load_insert _ i (Probing k t) Ready Hi). simpl in *. lia.
Qed.

Lemma step_raise (st : state) (done : list nat) (i : nat) (e : exn) :
  inv st done -> step world bind_ip st i = Raise e ->
  exists k t, tasks !! k = Some t /\ probe (world k) bind_ip t = Raise e.
Proof.
  intros Hinv. unfold step.
  destruct (workers st !! i) as [[|k t|]|] eqn:Hi; try done.
  - by destruct (queue st).
  - destruct (probe (world k) bind_ip t) as [r|e'] eqn:Hp; simpl; [done|].
    intros [= <-]. exists k, t. split; [|done]. by eapply inv_probing.
Qed.

(** All coroutines have returned: every task has its record. *)
Lemma inv_final (st : state) (done : list nat) :
  inv st done -> runnable (workers st) = [] -> (0 < length (workers st))%nat ->
  done ≡ₚ seq 0 (length tasks).
Proof.
  intros Hinv Hnil Hlen. pose proof (runnable_nil _ Hnil) as Hfin.
  destruct (workers st) as [|w0 ws] eqn:Hws; [simpl in Hlen; lia|].
  assert (queue st = []) as Hq.
  { apply (inv_finished Hinv 0%nat). rewrite Hws. simpl. f_equal.
    by apply (Hfin 0%nat). }
  rewrite (inv_queue Hinv) in Hq. apply drop_nil_inv in Hq.
  pose proof (inv_claimed Hinv) as Hcl.
  pose proof (inv_perm Hinv) as Hperm.
  rewrite Hws, (in_flight_finished _ Hfin), app_nil_r in Hperm.
  by replace (length tasks) with (claimed st) by lia.
Qed.

(** [gather] with enough fuel: it ends; when it returns, the results are
    the records of the tasks at the positions [done], which are all the
    positions when there is a worker; when it raises, a probe raised. *)
Lemma gather_spec (fuel : nat) :
  forall (n : nat) (st : state) (done : list nat),
    inv st done -> (measure st <= fuel)%nat ->
    match gather world sched bind_ip fuel n st with
    | None => False
    | Some (Ok results) =>
        exists done', Forall2 recorded done' results
          /\ ((0 < length (workers st))%nat -> done' ≡ₚ seq 0 (length tasks))
    | Some (Raise e) =>
        exists k t, tasks !! k = Some t /\ probe (world k) bind_ip t = Raise e
    end.
Proof.
  induction fuel as [|fuel IH]; intros n st done Hinv Hm.
  - simpl. destruct (runnable (workers st)) as [|i0 tl] eqn:Hr.
    + exists done. split; [by apply (inv_results Hinv)|]. by apply inv_final.
    + assert (In i0 (runnable (workers st))) as Hin by (rewrite Hr; by left).
      apply runnable_weight in Hin. unfold measure in Hm. lia.
  - simpl. destruct (runnable (workers st)) as [|i0 tl] eqn:Hr.
    + exists done. split; [by apply (inv_results Hinv)|]. by apply inv_final.
    + assert (In (nth (sched n mod length (i0 :: tl)) (i0 :: tl) i0)
                (runnable (workers st))) as Hin
        by (rewrite Hr; by apply (picked_runnable _ i0 _ tl)).
      destruct (step world bind_ip st _) as [st'|e] eqn:Hs.
      * destruct (step_inv _ _ _ _ Hinv Hs) as (Hlen & done' & Hinv').
        pose proof (step_measure _ _ _ Hin Hs) as Hlt.
        specialize (IH (S n) st' done' Hinv' ltac:(lia)).
        destruct (gather world sched bind_ip fuel (S n) st') as [[results|e]|]; [|done|done].
        by rewrite Hlen in IH.
      * by eapply step_raise.
Qed.

Lemma measure_enough (st : state) : (measure st <= enough st)%nat.
Proof. unfold measure, enough. pose proof (load_bound (workers st)). lia. Qed.

Lemma run_tasks_spec (concurrency : Z) :
  match run_tasks world sched bind_ip tasks concurrency with
  | None => False
  | Some (Ok results) =>
      exists done, Forall2 recorded done results
        /\ (0 < concurrency -> done ≡ₚ seq 0 (length tasks))
  | Some (Raise e) =>
      exists k t, tasks !! k = Some t /\ probe (world k) bind_ip t = Raise e
  end.
Proof.
  unfold run_tasks.
  pose proof (gather_spec (enough (init tasks concurrency)) 0 _ []
                (inv_init concurrency) (measure_enough _)) as H.
  destruct (gather _ _ _ _ _ _) as [[results|e]|]; [|done|done].
  destruct H as (done & Hres & Hperm). exists done. split; [done|].
  intros Hc. apply Hperm. simpl. unfold worker_range, PyStr.range.
  rewrite length_fmap, length_seqZ. lia.
Qed.
End RunFacts.

Section ExecutorFacts.
Import Tasks Probe Executor.

Lemma workers_init_length (tasks : list Task) (concurrency : Z) :
  length (workers (init tasks concurrency))
  = Z.to_nat (Z.min concurrency (Z.max 1 (Z.of_nat (length tasks)))).
Proof.
  simpl. unfold worker_range, PyStr.range.
  rewrite length_fmap, length_seqZ. f_equal. lia.
Qed.

Lemma recorded_length world bind_ip tasks (done : list nat) (results : list record) :
  Forall2 (recorded world bind_ip tasks) done results -> length results = length done.
Proof. intros H. symmetry. by eapply Forall2_length. Qed.

(** A TCP task always gets its record. *)
Lemma probe_tcp_returns (w : net) (bind_ip : option string) (host : string) (port : Z) :
  exists r, probe w bind_ip (host, port, "tcp") = Ok r.
Proof.
  unfold probe. simpl. rewrite tcp_check_cases. simpl. eauto.
Qed.

(** C1. With a positive concurrency [run_checks] ends for every task list
    and every scheduling. When it returns, the result list holds, for a
    permutation [done] of all the positions of the task list, the record of
    the probe of the task at each position: every task once, none dropped,
    none probed twice, and every claimed task has its record by then. It
    does return when no probe raises, and for ["both"] the result list then
    has 2 * |hosts| * |ports| records. *)
Theorem run_checks_one_record_per_task (world : nat -> net) (sched : nat -> nat)
    (bind_ip : option string) (tasks : list Task) (concurrency : Z) :
  0 < concurrency ->
  (exists outcome, run_tasks world sched bind_ip tasks concurrency = Some outcome)
  /\ (forall results,
        run_tasks world sched bind_ip tasks concurrency = Some (Ok results) ->
        exists done, done ≡ₚ seq 0 (length tasks)
          /\ Forall2 (recorded world bind_ip tasks) done results)
  /\ ((forall k t, tasks !! k = Some t -> exists r, probe (world k) bind_ip t = Ok r) ->
      exists results, run_tasks world sched bind_ip tasks concurrency = Some (Ok results))
  /\ (forall hosts ports results,
        run_checks world sched bind_ip hosts ports "both" concurrency = Some (Ok results) ->
        length results = (2 * length hosts * length ports)%nat).
Proof.
  intros Hc. split; [|split; [|split]].
  - pose proof (run_tasks_spec world sched bind_ip tasks concurrency) as H.
    destruct (run_tasks _ _ _ _ _) as [outcome|]; [eauto|done].
  - intros results Hrun.
    pose proof (run_tasks_spec world sched bind_ip tasks concurrency) as H.
    rewrite Hrun in H. destruct H as (done & Hres & Hperm). eauto.
  - intros Hok.
    pose proof (run_tasks_spec world sched bind_ip tasks concurrency) as H.
    destruct (run_tasks _ _ _ _ _) as [[results|e]|]; [eauto| |done].
    destruct H as (k & t & Ht & Hp). destruct (Hok k t Ht) as [r Hr]. congruence.
  - intros hosts ports results Hrun. unfold run_checks in Hrun.
    pose proof (run_tasks_spec world sched bind_ip (make_tasks hosts ports "both")
                  concurrency) as H.
    rewrite Hrun in H. destruct H as (done & Hres & Hperm).
    rewrite (recorded_length _ _ _ _ _ Hres), (Hperm Hc), length_seq.
    by apply (make_tasks_length hosts ports "both" 2).
Qed.

(** C3, as stated, fails: for an empty task list and concurrency 1 one
    worker is started, not min(1, 0) = 0. *)
Lemma run_checks_empty_starts_one_worker :
  length (workers (init [] 1)) = 1%nat
  /\ Z.of_nat (length (workers (init [] 1))) <> Z.min 1 (Z.of_nat (length (@nil Task))).
Proof. split; [reflexivity|]. vm_compute. discriminate. Qed.

(** C3, as amended. The executor starts
    max(0, min(concurrency, max(1, count(tasks)))) workers: that is
    min(concurrency, count(tasks)) for a task list that is not empty and a
    concurrency that is not negative, and one worker for an empty task list
    and a positive concurrency. *)
Theorem run_checks_worker_count (tasks : list Task) (concurrency : Z) :
  Z.of_nat (length (workers (init tasks concurrency)))
    = Z.max 0 (Z.min concurrency (Z.max 1 (Z.of_nat (length tasks))))
  /\ (tasks <> [] -> 0 <= concurrency ->
      Z.of_nat (length (workers (init tasks concurrency)))
      = Z.min concurrency (Z.of_nat (length tasks)))
  /\ (tasks = [] -> 0 < concurrency ->
      length (workers (init tasks concurrency)) = 1%nat).
Proof.
  rewrite workers_init_length. split; [lia|]. split.
  - intros Hne Hc. destruct tasks; [done|]. simpl length. lia.
  - intros -> Hc. simpl length. lia.
Qed.

(** C2, at its failing input. The UDP probe of a name that does not resolve
    raises the error of its [connect], and [run_checks] raises it in turn,
    under every scheduling of its single worker: the failure is not kept in
    a record. *)
Lemma run_checks_raises_udp_connect_error (sched : nat -> nat) :
  run_checks (fun _ => net_unresolvable) sched None ["no-such-host.invalid"] [53] "udp" 1
  = Some (Raise (OSError "[Errno -2] Name or service not known")).
Proof.
  unfold run_checks, run_tasks.
  change (make_tasks ["no-such-host.invalid"] [53] "udp")
    with [("no-such-host.invalid", 53, "udp")].
  change (enough _) with 5%nat.
  change (init [("no-such-host.invalid", 53, "udp")] 1)
    with {| queue := [("no-such-host.invalid", 53, "udp")]; results := [];
            workers := [Ready]; claimed := 0 |}.
  cbn [gather runnable workers length seq List.filter lookup list_lookup from_option is_runnable].
  rewrite !Nat.mod_1_r. cbn [nth step workers queue lookup list_lookup claimed].
  cbn [insert list_insert gather runnable workers length seq List.filter lookup
         list_lookup from_option is_runnable].
  rewrite !Nat.mod_1_r. reflexivity.
Qed.
End ExecutorFacts.

(** ** main *)

Section MainFacts.
Import Tasks Probe Executor Main.

Lemma make_tasks_nil (hosts : list string) (ports : list Z) (proto : string) :
  hosts = [] \/ ports = [] -> make_tasks hosts ports proto = [].
Proof.
  rewrite make_tasks_flat. intros [->| ->]; [done|].
  induction hosts as [|h hosts IH]; simpl; done.
Qed.

Lemma run_tasks_nil (world : nat -> net) (sched : nat -> nat) (bind_ip : option string)
    (concurrency : Z) :
  run_tasks world sched bind_ip [] concurrency = Some (Ok []).
Proof.
  pose proof (run_tasks_spec world sched bind_ip [] concurrency) as H.
  destruct (run_tasks _ _ _ _ _) as [[results|e]|]; [| |done].
  - destruct H as (done & Hres & _). destruct Hres as [|k r ? ? Hk _]; [done|].
    by destruct Hk as (t & Ht & _).
  - by destruct H as (k & t & Ht & _).
Qed.

(** C8, as amended. When the configuration yields no host or no port the
    run does not abort: [run_checks] probes nothing and returns the empty
    result list, under every concurrency and scheduling, and [main] hands
    that empty list to the output writer. *)
Theorem main_without_hosts_or_ports_returns_empty {ip : Type}
    (ip_address : string -> option ip) (open_lines : string -> result (list string))
    (world : nat -> net) (sched : nat -> nat) (a : args)
    (hosts : list string) (parsed : list Z) :
  read_hosts open_lines a = Ok hosts ->
  Ports.parse_ports (ports a) = Ok parsed ->
  Hosts.validate_hosts ip_address hosts = [] \/ parsed = [] ->
  run_checks world sched (bind a) (Hosts.validate_hosts ip_address hosts) parsed
    (Main.proto a) (concurrency a) = Some (Ok [])
  /\ main ip_address open_lines world sched a = Some (Ok []).
Proof.
  intros Hh Hp Hnil.
  assert (run_checks world sched (bind a) (Hosts.validate_hosts ip_address hosts) parsed
            (Main.proto a) (concurrency a) = Some (Ok [])) as Hrun.
  { unfold run_checks. rewrite (make_tasks_nil _ _ _ Hnil). apply run_tasks_nil. }
  split; [done|]. unfold main. by rewrite Hh, Hp.
Qed.

(** C8, as stated, fails: with no host, or with no port, [main] reports no
    error and passes an empty result list on. *)
Lemma main_runs_without_hosts_or_ports :
  main no_literal no_file (fun _ => net_silent) (fun n => n) args_no_hosts = Some (Ok [])
  /\ main no_literal no_file (fun _ => net_silent) (fun n => n) args_no_ports = Some (Ok [])
  /\ ~ (exists e, main no_literal no_file (fun _ => net_silent) (fun n => n) args_no_hosts
                  = Some (Raise e)).
Proof.
  split; [vm_compute; reflexivity|]. split; [vm_compute; reflexivity|].
  intros [e He]. vm_compute in He. discriminate.
Qed.
End MainFacts.

(** ** The theorems at concrete inputs *)

Section Instances.
Import PyStr Tasks Probe Executor Main.

Lemma run_checks_one_record_per_task_witness :
  0 < 2
  /\ exists results,
       run_tasks (fun _ => net_silent) (fun n => n) None
         [("127.0.0.1", 9, "tcp"); ("127.0.0.1", 9, "udp")] 2 = Some (Ok results).
Proof.
  split; [lia|].
  refine (proj1 (proj2 (proj2 (run_checks_one_record_per_task
            (fun _ => net_silent) (fun n => n) None
            [("127.0.0.1", 9, "tcp"); ("127.0.0.1", 9, "udp")] 2 _))) _).
  - lia.
  - intros [|[|k]] t; simpl; intros [= <-]; eexists; reflexivity.
Defined.

Lemma run_checks_worker_count_witness :
  length (workers (init [] 200)) = 1%nat.
Proof.
  refine (proj2 (proj2 (run_checks_worker_count [] 200)) _ _); [reflexivity|lia].
Defined.

Lemma make_tasks_host_major_port_minor_witness :
  make_tasks ["a"; "b"] [1; 2] "both" !! (2 * (1 * length [1; 2] + 1))%nat
  = Some ("b", 2, "tcp").
Proof.
  refine (proj1 (proj2 (proj2 (make_tasks_host_major_port_minor ["a"; "b"] [1; 2]))
                   1%nat 1%nat "b" 2 _ _)); reflexivity.
Defined.

Lemma udp_probe_classifies_witness :
  exists src_ip,
    udp_probe_sync net_silent "192.0.2.7" 53 None
    = Ok (src_ip, resolve_host net_silent "192.0.2.7", 53,
          status_text (udp_outcome (recv net_silent)), elapsed_ms net_silent).
Proof.
  refine (proj2 (proj2 (proj2 (udp_probe_classifies net_silent "192.0.2.7" 53 None)))
            _ _ _ _ _ _); try reflexivity.
  intros e [= <-]. reflexivity.
Defined.


Lemma parse_ports_ranges_inclusive_first_seen_witness :
  exists l, Ports.expand_part "10-12" = Ok l
    /\ forall (i : nat) z, l !! i = Some z <-> z = 10 + Z.of_nat i /\ z <= 12.
Proof.
  refine (proj1 (proj2 parse_ports_ranges_inclusive_first_seen)
            "10-12" "10" "12" 10 12 _ _ _); reflexivity.
Defined.

Lemma main_without_hosts_or_ports_returns_empty_witness :
  main no_literal no_file (fun _ => net_silent) (fun n => n) args_no_hosts = Some (Ok []).
Proof.
  refine (proj2 (main_without_hosts_or_ports_returns_empty no_literal no_file
                   (fun _ => net_silent) (fun n => n) args_no_hosts [] [80] _ _ _)).
  - reflexivity.
  - vm_compute. reflexivity.
  - left. reflexivity.
Defined.

Lemma validate_hosts_rejects_nothing_witness :
  In (strip " not an address ")
    (Hosts.validate_hosts no_literal ["10.0.0.1"; " not an address "; "  "]).
Proof.
  refine (proj2 (validate_hosts_rejects_nothing no_literal
                   ["10.0.0.1"; " not an address "; "  "]) " not an address " _ _ _).
  - right. left. reflexivity.
  - reflexivity.
  - reflexivity.
Defined.
End Instances.

(** * Further properties of the script *)

(** ** Facts about the string methods *)

Section StringFacts.
Import PyStr.

Lemma lstrip_head s c r : lstrip s = String c r -> is_space c = false.
Proof.
  induction s as [|a s IH]; simpl; [done|].
  destruct (is_space a) eqn:Ea; [done|]. by intros [= <- <-].
Qed.

Lemma rstrip_idem s : rstrip (rstrip s) = rstrip s.
Proof.
  induction s as [|c s IH]; simpl; [done|].
  destruct (rstrip s) as [|d r] eqn:E.
  - destruct (is_space c) eqn:Ec; simpl; [done|]. by rewrite Ec.
  - change (rstrip (String c (String d r))) with
      (match rstrip (String d r) with
       | EmptyString => if is_space c then EmptyString else String c EmptyString
       | r0 => String c r0
       end).
    by rewrite IH.
Qed.

Lemma rstrip_head c r : is_space c = false -> exists r', rstrip (String c r) = String c r'.
Proof. intros Ec. simpl. destruct (rstrip r); rewrite ?Ec; eauto. Qed.

Lemma strip_idem s : strip (strip s) = strip s.
Proof.
  unfold strip. destruct (lstrip s) as [|c r] eqn:E; [done|].
  pose proof (lstrip_head _ _ _ E) as Ec.
  destruct (rstrip_head c r Ec) as [r' Hr]. rewrite Hr. simpl lstrip. rewrite Ec.
  rewrite <- Hr. apply rstrip_idem.
Qed.

Lemma contains_lstrip x s : contains x s = false -> contains x (lstrip s) = false.
Proof.
  induction s as [|c s IH]; simpl; [done|].
  intros [H1 H2]%orb_false_iff. destruct (is_space c); [auto|].
  simpl. by rewrite H1, H2.
Qed.

Lemma contains_rstrip x s : contains x s = false -> contains x (rstrip s) = false.
Proof.
  induction s as [|c s IH]; simpl; [done|].
  intros [H1 H2]%orb_false_iff. specialize (IH H2).
  destruct (rstrip s) as [|d r].
  - destruct (is_space c); simpl; [done|]. by rewrite H1.
  - simpl in *. by rewrite H1, IH.
Qed.

Lemma contains_strip x s : contains x s = false -> contains x (strip s) = false.
Proof. intros H. by apply contains_rstrip, contains_lstrip. Qed.

Lemma split1_hd_no_sep sep s : contains sep (hd EmptyString (split1 sep s)) = false.
Proof.
  induction s as [|c s IH]; simpl; [done|].
  destruct (Ascii.eqb c sep) eqn:Ec; [done|].
  destruct (split1 sep s) as [|w ws]; simpl in *; by rewrite Ec, ?IH.
Qed.

Lemma truthy_nonempty s : truthy s = true <-> s <> EmptyString.
Proof. by destruct s. Qed.
End StringFacts.

(** ** Host lists *)

Section HostListFacts.
Import PyStr Hosts.
Context {ip : Type} (ip_address : string -> option ip).

Lemma filter_strip_clean (l : list string) :
  Forall clean l -> List.filter truthy (strip <$> l) = l.
Proof.
  induction 1 as [|h l [Ht Hs] _ IH]; simpl; [done|].
  rewrite Hs, Ht. by f_equal.
Qed.

Lemma filter_strip_all_clean (l : list string) :
  Forall clean (List.filter truthy (strip <$> l)).
Proof.
  induction l as [|h l IH]; simpl; [constructor|].
  destruct (truthy (strip h)) eqn:Ht; [|done].
  constructor; [|done]. split; [done|apply strip_idem].
Qed.

Lemma split_targets_clean (t : string) : Forall clean (split_targets t).
Proof.
  unfold split_targets. induction (split "," t) as [|p l IH]; simpl; [constructor|].
  destruct (truthy (strip p)) eqn:Ht; [|done].
  constructor; [|done]. split; [done|apply strip_idem].
Qed.

Lemma lines_loop_spec (lines out : list string) :
  lines_loop out lines
  = out ++ List.filter truthy ((fun line => strip (hd EmptyString (split1 "#" line))) <$> lines).
Proof.
  revert out; induction lines as [|line lines IH]; intros out; simpl.
  - by rewrite app_nil_r.
  - destruct (truthy (strip (hd EmptyString (split1 "#" line)))); rewrite IH;
      [|reflexivity].
    rewrite <- app_assoc. reflexivity.
Qed.

(** Every host [validate_hosts] returns is non-empty and free of
    surrounding whitespace, and a second pass changes nothing. *)
Theorem validate_hosts_idempotent (hosts : list string) :
  (forall h, In h (validate_hosts ip_address hosts) ->
     h <> EmptyString /\ strip h = h)
  /\ validate_hosts ip_address (validate_hosts ip_address hosts)
     = validate_hosts ip_address hosts.
Proof.
  unfold validate_hosts. rewrite !(validate_loop_spec ip_address _ []). simpl.
  pose proof (filter_strip_all_clean hosts) as Hc. split.
  - intros h Hin. rewrite Forall_forall in Hc.
    destruct (Hc h) as [Ht Hs]; [by apply list_elem_of_In|].
    split; [by apply truthy_nonempty|done].
  - by apply filter_strip_clean.
Qed.

(** The hosts [main] reads from [--targets] are already what
    [validate_hosts] returns for them: the second pass of [main] over them
    removes and changes nothing. *)
Theorem validate_hosts_split_targets (targets : string) :
  validate_hosts ip_address (split_targets targets) = split_targets targets.
Proof.
  unfold validate_hosts. rewrite (validate_loop_spec ip_address _ []). simpl.
  apply filter_strip_clean, split_targets_clean.
Qed.

(** The hosts read from a file: one entry per line that holds something
    before its first [#], in the order of the lines; every entry is
    non-empty, free of surrounding whitespace and of [#], and
    [validate_hosts] keeps the list as it is. *)
Theorem expand_targets_from_file_entries (open_lines : string -> result (list string))
    (path : string) (lines : list string) :
  open_lines path = Ok lines ->
  exists hosts,
    expand_targets_from_file open_lines (Some path) = Ok hosts
    /\ hosts = List.filter truthy
                 ((fun line => strip (hd EmptyString (split1 "#" line))) <$> lines)
    /\ (forall h, In h hosts ->
          h <> EmptyString /\ strip h = h /\ contains "#" h = false)
    /\ validate_hosts ip_address hosts = hosts.
Proof.
  intros Hopen. eexists. split; [|split; [reflexivity|]].
  - unfold expand_targets_from_file. rewrite Hopen. simpl.
    by rewrite (lines_loop_spec lines []).
  - split.
    + intros h (Hin & Ht)%filter_In. apply in_map_iff in Hin as (line & <- & _).
      split; [by apply truthy_nonempty|]. split; [apply strip_idem|].
      apply contains_strip, split1_hd_no_sep.
    + unfold validate_hosts. rewrite (validate_loop_spec ip_address _ []). simpl.
      apply filter_strip_clean. clear Hopen.
      induction lines as [|line l IH]; simpl; [constructor|].
      destruct (truthy (strip (hd EmptyString (split1 "#" line)))) eqn:Ht; [|done].
      constructor; [|done]. split; [done|apply strip_idem].
Qed.

(** Without a path, or with a file that cannot be opened,
    [expand_targets_from_file] raises: a [TypeError] in the first case, the
    error of [open] in the second. *)
Lemma expand_targets_from_file_errors (open_lines : string -> result (list string)) :
  (exists d, expand_targets_from_file open_lines None = Raise (TypeError d))
  /\ (forall path e, open_lines path = Raise e ->
        expand_targets_from_file open_lines (Some path) = Raise e).
Proof.
  split; [by eexists|]. intros path e He. simpl. by rewrite He.
Qed.
End HostListFacts.

(** ** Task lists *)

Section TaskListFacts.
Import Tasks.

Lemma in_pair_true x a b : in_pair x a b = true <-> x = a \/ x = b.
Proof. unfold in_pair. rewrite orb_true_iff, !String.eqb_eq. tauto. Qed.

Lemma pair_tasks_members proto h p (t : Task) :
  In t (pair_tasks proto h p)
  <-> (t = (h, p, "tcp") /\ (proto = "tcp" \/ proto = "both"))
      \/ (t = (h, p, "udp") /\ (proto = "udp" \/ proto = "both")).
Proof.
  unfold pair_tasks. rewrite in_app_iff.
  pose proof (in_pair_true proto "tcp" "both") as Ht.
  pose proof (in_pair_true proto "udp" "both") as Hu.
  destruct (in_pair proto "tcp" "both"), (in_pair proto "udp" "both"); simpl;
    intuition (try discriminate; eauto).
Qed.

Lemma make_tasks_members_iff hosts ports proto h p prot :
  In (h, p, prot) (make_tasks hosts ports proto)
  <-> In h hosts /\ In p ports
      /\ ((prot = "tcp" /\ (proto = "tcp" \/ proto = "both"))
          \/ (prot = "udp" /\ (proto = "udp" \/ proto = "both"))).
Proof.
  rewrite make_tasks_flat, in_flat_map. split.
  - intros (h' & Hh & (p' & Hp & Hin)%in_flat_map).
    apply pair_tasks_members in Hin as [[[= -> -> ->] ?]|[[= -> -> ->] ?]]; eauto 10.
  - intros (Hh & Hp & Hprot). exists h. split; [done|].
    apply in_flat_map. exists p. split; [done|].
    apply pair_tasks_members. destruct Hprot as [[-> ?]|[-> ?]]; eauto.
Qed.

(** The tasks of [make_tasks] are exactly the triples of a listed host, a
    listed port and a protocol the selector asks for: nothing else appears,
    the protocol of a task is always "tcp" or "udp", and a selector other
    than "tcp", "udp" and "both" gives no task at all. *)
Theorem make_tasks_members (hosts : list string) (ports : list Z) (proto : string) :
  (forall h p prot,
     In (h, p, prot) (make_tasks hosts ports proto)
     <-> In h hosts /\ In p ports
         /\ ((prot = "tcp" /\ (proto = "tcp" \/ proto = "both"))
             \/ (prot = "udp" /\ (proto = "udp" \/ proto = "both"))))
  /\ (proto <> "tcp" -> proto <> "udp" -> proto <> "both" ->
      make_tasks hosts ports proto = []).
Proof.
  split; [intros; apply make_tasks_members_iff|].
  intros H1 H2 H3. destruct (make_tasks hosts ports proto) as [|[[h p] prot] l] eqn:E; [done|].
  assert (In (h, p, prot) (make_tasks hosts ports proto)) as Hin by (rewrite E; by left).
  apply make_tasks_members_iff in Hin. intuition congruence.
Qed.
End TaskListFacts.

(** ** More on the probes *)

Section ProbeRecordFacts.
Import PyStr Tasks Probe Executor.

Lemma source_of_socket_chain w bind_ip dst_ip :
  source_of_socket w bind_ip dst_ip
  = Ok (fallback_chain (getsockname w) bind_ip (local_ip_try w dst_ip)).
Proof.
  unfold source_of_socket, fallback_chain.
  destruct (getsockname w); simpl; by rewrite ?or_else_chain.
Qed.

(** The parts of a tuple that [udp_probe_sync] returns. *)
Lemma udp_probe_inv w host port bind_ip src_ip dst_ip prt status el :
  udp_probe_sync w host port bind_ip = Ok (src_ip, dst_ip, prt, status, el) ->
  src_ip = fallback_chain (getsockname w) bind_ip (local_ip_try w (resolve_host w host))
  /\ dst_ip = resolve_host w host /\ prt = port /\ el = elapsed_ms w.
Proof.
  intros (_ & _ & Htry)%udp_probe_returns_inv. revert Htry. unfold udp_try.
  destruct (settimeout w) as [[]|]; simpl; [|done].
  rewrite try_bind_ok; simpl.
  destruct (connect w _ port) as [[]|]; simpl; [|done].
  rewrite source_of_socket_chain; simpl.
  destruct (send w) as [[]|]; simpl; [|done].
  destruct (udp_status w) as [st|]; simpl; [|done].
  by intros [= <- <- <- <- <-].
Qed.

(** Whatever the outcome of the wait, a UDP probe that returns reports as
    source the local endpoint of its socket if obtainable, else the bind
    address when one was given, else the address found by the helper UDP
    connect, else "unknown". *)
Theorem udp_probe_source_address (w : net) (host : string) (port : Z)
    (bind_ip : option string) (tup : probe_tuple) :
  udp_probe_sync w host port bind_ip = Ok tup ->
  source_address (Ok tup)
  = Some (fallback_chain (getsockname w) bind_ip (local_ip_try w (resolve_host w host))).
Proof.
  destruct tup as [[[[src_ip dst_ip] prt] status] el]. intros H.
  apply udp_probe_inv in H as (-> & _). reflexivity.
Qed.

(** An exception that leaves [udp_probe_sync] is the one raised by the
    creation of the socket, by the [close] of the [finally], by
    [settimeout], by [connect], by [send], or by a [recv] failing with
    something that is no [OSError]; a failing [bind] or [getsockname] never
    makes the probe raise. *)
Theorem udp_probe_raises_from (w : net) (host : string) (port : Z)
    (bind_ip : option string) (e : exn) :
  udp_probe_sync w host port bind_ip = Raise e ->
  socket_new w = Raise e \/ close w = Raise e \/ settimeout w = Raise e
  \/ connect w (resolve_host w host) port = Raise e \/ send w = Raise e
  \/ (recv w = Raise e /\ is_OSError e = false).
Proof.
  unfold udp_probe_sync, try_finally, udp_try.
  destruct (socket_new w) as [[]|]; simpl; [|intros [= <-]; tauto].
  destruct (close w) as [[]|]; [|intros [= <-]; tauto].
  destruct (settimeout w) as [[]|]; simpl; [|intros [= <-]; tauto].
  rewrite try_bind_ok; simpl.
  destruct (connect w _ port) as [[]|]; simpl; [|intros [= <-]; tauto].
  rewrite source_of_socket_chain; simpl.
  destruct (send w) as [[]|]; simpl; [|intros [= <-]; tauto].
  unfold udp_status. destruct (recv w) as [data|e']; simpl; [done|].
  destruct e'; simpl; try done; intros [= <-]; tauto.
Qed.

Lemma probe_fields w bind_ip host port prot (r : record) :
  probe w bind_ip (host, port, prot) = Ok r ->
  Executor.port r = port /\ Executor.proto r = prot /\ dst r = resolve_host w host.
Proof.
  intros H. unfold probe in H. destruct (String.eqb prot "tcp").
  - rewrite tcp_check_cases in H. simpl in H. by inversion H.
  - unfold udp_check in H.
    destruct (udp_probe_sync w host port bind_ip) as [[[[[s d] p] st] el]|] eqn:E;
      simpl in H; [|done].
    apply udp_probe_inv in E as (_ & -> & -> & _). by inversion H.
Qed.

(** The record a worker appends for a task carries the port and the
    protocol of the task, and as destination the address the host resolves
    to, or the host itself when it does not resolve. *)
Theorem probe_record_fields (w : net) (bind_ip : option string)
    (host : string) (port : Z) (prot : string) (r : record) :
  probe w bind_ip (host, port, prot) = Ok r ->
  Executor.port r = port /\ Executor.proto r = prot
  /\ dst r = resolve_host w host
  /\ (forall a, gethostbyname w host = Ok a -> dst r = a)
  /\ (forall e, gethostbyname w host = Raise e -> dst r = host).
Proof.
  intros H. destruct (probe_fields _ _ _ _ _ _ H) as (Hp & Hpr & Hd).
  repeat split; try done.
  - intros a Ha. rewrite Hd. unfold resolve_host. by rewrite Ha.
  - intros e He. rewrite Hd. unfold resolve_host. by rewrite He.
Qed.
End ProbeRecordFacts.

(** ** More on the executor *)

Section ExecutorRunFacts.
Import PyStr Tasks Probe Executor.
Variable world : nat -> net.
Variable sched : nat -> nat.
Variable bind_ip : option string.

Lemma make_tasks_prot hosts ports proto (k : nat) h p prot :
  make_tasks hosts ports proto !! k = Some (h, p, prot) ->
  In h hosts /\ In p ports /\ (prot = "tcp" \/ prot = "udp")
  /\ (proto = "tcp" -> prot = "tcp") /\ (proto = "udp" -> prot = "udp").
Proof.
  intros Hk%list_elem_of_lookup_2%list_elem_of_In%make_tasks_members_iff.
  destruct Hk as (Hh & Hp & [[-> [->| ->]]|[-> [->| ->]]]); repeat split; auto; done.
Qed.

(** A run only fails through a UDP probe: the exception [run_checks] raises
    is the one [udp_probe_sync] raised for a task whose protocol is not
    "tcp". *)
Theorem run_tasks_raises_from_udp (tasks : list Task) (concurrency : Z) (e : exn) :
  run_tasks world sched bind_ip tasks concurrency = Some (Raise e) ->
  exists (k : nat) host port prot,
    tasks !! k = Some (host, port, prot) /\ prot <> "tcp"
    /\ udp_probe_sync (world k) host port bind_ip = Raise e.
Proof.
  intros Hrun. pose proof (run_tasks_spec world sched bind_ip tasks concurrency) as H.
  rewrite Hrun in H. destruct H as (k & [[host port] prot] & Ht & Hp).
  exists k, host, port, prot. split; [done|].
  destruct (String.eqb_spec prot "tcp") as [->|Hne].
  - destruct (probe_tcp_returns (world k) bind_ip host port) as [r Hr]. congruence.
  - split; [done|]. unfold probe in Hp.
    destruct (String.eqb prot "tcp") eqn:E; [by apply String.eqb_eq in E|].
    unfold udp_check in Hp.
    destruct (udp_probe_sync (world k) host port bind_ip) as [[[[[s d] p] st] el]|]; [done|].
    simpl in Hp. congruence.
Qed.

Lemma run_checks_tcp_returns (hosts : list string) (ports : list Z)
    (concurrency : Z) :
  0 < concurrency ->
  exists results,
    run_checks world sched bind_ip hosts ports "tcp" concurrency = Some (Ok results)
    /\ length results = (length hosts * length ports)%nat
    /\ Forall (fun r => Executor.proto r = "tcp") results.
Proof.
  intros Hc. unfold run_checks.
  pose proof (run_tasks_spec world sched bind_ip (make_tasks hosts ports "tcp")
                concurrency) as H.
  destruct (run_tasks _ _ _ _ _) as [[results|e]|]; [| |done].
  - destruct H as (done & Hres & Hperm). exists results. split; [done|]. split.
    + rewrite (recorded_length _ _ _ _ _ Hres), (Hperm Hc), length_seq.
      rewrite (make_tasks_length hosts ports "tcp" 1) by done. lia.
    + clear Hperm. induction Hres as [|k r done results Hk _ IH]; constructor; [|done].
      destruct Hk as ([[h p] prot] & Ht & Hp).
      apply make_tasks_prot in Ht as (_ & _ & _ & Htcp & _).
      apply probe_fields in Hp as (_ & -> & _). by apply Htcp.
  - destruct H as (k & [[h p] prot] & Ht & Hp).
    apply make_tasks_prot in Ht as (_ & _ & _ & Htcp & _). rewrite (Htcp eq_refl) in Hp.
    destruct (probe_tcp_returns (world k) bind_ip h p) as [r Hr]. congruence.
Qed.

(** With the selector "tcp" and a positive concurrency [run_checks] always
    returns, under every scheduling and whatever the network answers: one
    record per (host, port) pair, all of protocol "tcp". *)
Theorem run_checks_tcp_always_returns (hosts : list string) (ports : list Z)
    (concurrency : Z) :
  0 < concurrency ->
  exists results,
    run_checks world sched bind_ip hosts ports "tcp" concurrency = Some (Ok results)
    /\ length results = (length hosts * length ports)%nat
    /\ Forall (fun r => Executor.proto r = "tcp") results.
Proof. apply run_checks_tcp_returns. Qed.

(** With a concurrency of zero or less no worker is started:
    [run_checks] returns the empty list at once and probes none of its
    tasks. *)
Theorem run_tasks_without_workers (tasks : list Task) (concurrency : Z) :
  concurrency <= 0 ->
  workers (init tasks concurrency) = []
  /\ run_tasks world sched bind_ip tasks concurrency = Some (Ok []).
Proof.
  intros Hc.
  assert (workers (init tasks concurrency) = []) as Hw.
  { simpl. unfold worker_range, range. rewrite seqZ_nil by lia. done. }
  split; [done|]. unfold run_tasks.
  destruct (enough (init tasks concurrency)); simpl; unfold worker_range, range;
    rewrite seqZ_nil by lia; reflexivity.
Qed.

Lemma gather_single_worker (ts : list Task) :
  forall (c n fuel : nat) (rs : list record),
    (3 * length ts + 1 <= fuel)%nat ->
    gather world sched bind_ip fuel n
      {| queue := ts; results := rs; workers := [Ready]; claimed := c |}
    = Some (more ← probe_in_order world bind_ip ts c; Ok (rs ++ more)).
Proof.
  induction ts as [|t q IH]; intros c n fuel rs Hf.
  - destruct fuel as [|fuel]; [simpl in Hf; lia|].
    cbn [gather runnable workers length seq List.filter lookup list_lookup from_option
           is_runnable].
    rewrite Nat.mod_1_r.
    cbn [nth step workers queue lookup list_lookup claimed results insert list_insert].
    destruct fuel; simpl; by rewrite app_nil_r.
  - destruct fuel as [|[|fuel]]; [simpl in Hf; lia..|].
    cbn [gather runnable workers length seq List.filter lookup list_lookup from_option
           is_runnable].
    rewrite Nat.mod_1_r.
    cbn [nth step workers queue lookup list_lookup claimed results insert list_insert].
    cbn [gather runnable workers length seq List.filter lookup list_lookup from_option
           is_runnable].
    rewrite Nat.mod_1_r.
    cbn [nth step workers queue lookup list_lookup claimed results insert list_insert].
    cbn [probe_in_order].
    destruct (probe (world c) bind_ip t) as [r|e]; simpl; [|done].
    rewrite IH by (simpl in Hf; lia).
    destruct (probe_in_order world bind_ip q (S c)) as [more|e]; simpl; [|done].
    by rewrite <- app_assoc.
Qed.

(** With a concurrency of one, [run_checks] is the sequential loop, under
    every scheduling: it probes the tasks in the order of the list, returns
    their records in that order, and raises what the first failing probe
    raises. *)
Theorem run_tasks_single_worker_in_order (tasks : list Task) :
  run_tasks world sched bind_ip tasks 1 = Some (probe_in_order world bind_ip tasks 0).
Proof.
  unfold run_tasks.
  assert (init tasks 1
          = {| queue := tasks; results := []; workers := [Ready]; claimed := 0 |}) as ->.
  { unfold init, worker_range, range.
    replace (Z.min 1 (Z.max 1 (Z.of_nat (length tasks))) - 0) with 1 by lia. done. }
  rewrite gather_single_worker by (unfold enough; simpl; lia).
  by destruct (probe_in_order world bind_ip tasks 0).
Qed.
End ExecutorRunFacts.

Section ReachableFacts.
Import PyStr Tasks Probe Executor.
Variable world : nat -> net.
Variable bind_ip : option string.
Variable tasks : list Task.
Variable concurrency : Z.

Lemma reachable_inv (st : state) :
  reachable world bind_ip tasks concurrency st ->
  length (workers st) = length (workers (init tasks concurrency))
  /\ exists done, inv world bind_ip tasks st done.
Proof.
  induction 1 as [|st st' i _ [Hlen [done Hinv]] Hstep].
  - split; [done|]. exists []. apply inv_init.
  - destruct (step_inv _ _ _ _ _ _ _ Hinv Hstep) as (Hlen' & done' & Hinv').
    split; [congruence|eauto].
Qed.

Lemma in_flight_length (ws : list wstate) : (length (in_flight ws) <= length ws)%nat.
Proof.
  unfold in_flight. induction ws as [|w0 ws IH]; simpl; [done|].
  rewrite length_app. destruct w0; simpl; lia.
Qed.

Lemma recorded_of_done (done : list nat) (rs : list record) (k : nat) :
  Forall2 (recorded world bind_ip tasks) done rs -> k ∈ done ->
  exists r, r ∈ rs /\ recorded world bind_ip tasks k r.
Proof.
  induction 1 as [|k' r done rs Hk _ IH]; [by intros ?%elem_of_nil|].
  intros [->|Hin]%elem_of_cons.
  - exists r. split; [by left|done].
  - destruct (IH Hin) as (r' & Hr' & Hk'). exists r'. split; [by right|done].
Qed.

Lemma done_of_recorded (done : list nat) (rs : list record) (r : record) :
  Forall2 (recorded world bind_ip tasks) done rs -> r ∈ rs ->
  exists k, k ∈ done /\ recorded world bind_ip tasks k r.
Proof.
  induction 1 as [|k r' done rs Hk _ IH]; [by intros ?%elem_of_nil|].
  intros [->|Hin]%elem_of_cons.
  - exists k. split; [by left|done].
  - destruct (IH Hin) as (k' & Hk' & Hr'). exists k'. split; [by right|done].
Qed.

(** In every state the executor can reach, whatever the scheduling: the
    number of workers is the one it started with, the probes under way are
    at most as many as the workers and, for a concurrency that is not
    negative, at most [concurrency]; no task is under way twice; the
    results are, in their order, the records of tasks at positions [done]
    which, together with the positions under way, are exactly the claimed
    positions 0 .. claimed - 1, each once. So every claimed task is under
    way or has its record in the results, every record in the results is
    the record of a claimed task, a task under way has been claimed, and
    the queue holds the tasks not yet claimed, in their order. *)
Theorem reachable_bounds (st : state) :
  reachable world bind_ip tasks concurrency st ->
  length (workers st)
    = Z.to_nat (Z.min concurrency (Z.max 1 (Z.of_nat (length tasks))))
  /\ (length (in_flight (workers st)) <= length (workers st))%nat
  /\ (0 <= concurrency -> Z.of_nat (length (in_flight (workers st))) <= concurrency)
  /\ NoDup (in_flight (workers st))
  /\ (exists done,
        Forall2 (recorded world bind_ip tasks) done (results st)
        /\ done ++ in_flight (workers st) ≡ₚ seq 0 (claimed st))
  /\ (forall k, (k < claimed st)%nat ->
        k ∈ in_flight (workers st)
        \/ exists r, r ∈ results st /\ recorded world bind_ip tasks k r)
  /\ (forall r, r ∈ results st ->
        exists k, (k < claimed st)%nat /\ recorded world bind_ip tasks k r)
  /\ (forall k, k ∈ in_flight (workers st) -> (k < claimed st)%nat)
  /\ claimed st = (length (results st) + length (in_flight (workers st)))%nat
  /\ (claimed st <= length tasks)%nat
  /\ queue st = drop (claimed st) tasks.
Proof.
  intros (Hlen & done & Hinv)%reachable_inv.
  rewrite workers_init_length in Hlen.
  pose proof (in_flight_length (workers st)) as Hfl.
  pose proof (inv_perm Hinv) as Hperm.
  pose proof (inv_results Hinv) as Hres.
  assert (forall k, k ∈ done ++ in_flight (workers st) <-> (k < claimed st)%nat) as Hel.
  { intros k. rewrite Hperm, elem_of_seq. lia. }
  split; [done|]. split; [done|]. split; [lia|].
  split; [|split; [|split; [|split; [|split; [|split; [|split]]]]]].
  - assert (NoDup (done ++ in_flight (workers st))) as Hnd
      by (rewrite Hperm; apply NoDup_seq).
    by apply NoDup_app in Hnd as (_ & _ & ?).
  - eauto.
  - intros k [Hk|Hk]%Hel%elem_of_app; [right|by left].
    by eapply recorded_of_done.
  - intros r Hr. destruct (done_of_recorded _ _ _ Hres Hr) as (k & Hk & Hrec).
    exists k. split; [|done]. apply Hel, elem_of_app. by left.
  - intros k Hk. apply Hel, elem_of_app. by right.
  - apply Permutation_length in Hperm.
    rewrite length_app, length_seq in Hperm.
    rewrite (recorded_length _ _ _ _ _ Hres). lia.
  - apply (inv_claimed Hinv).
  - apply (inv_queue Hinv).
Qed.
End ReachableFacts.

(** ** More on parse_ports *)

Section PortSpecFacts.
Import PyStr Ports.

Lemma lstrip_all_space s : all_space s = true -> lstrip s = EmptyString.
Proof.
  induction s as [|c s IH]; simpl; [done|].
  intros [Hc Hs]%andb_true_iff. rewrite Hc. auto.
Qed.

Lemma strip_all_space s : all_space s = true -> strip s = EmptyString.
Proof. intros H. unfold strip. by rewrite lstrip_all_space. Qed.

Lemma space_not_comma c : is_space c = true -> Ascii.eqb c "," = false.
Proof.
  intros Hc. destruct (Ascii.eqb_spec c ",") as [->|]; [|done].
  vm_compute in Hc. discriminate.
Qed.

Lemma split_only_commas_and_space s :
  only_commas_and_space s = true ->
  Forall (fun p => all_space p = true) (split "," s).
Proof.
  induction s as [|c s IH]; simpl; [by repeat constructor|].
  intros [Hc Hs]%andb_true_iff. specialize (IH Hs).
  destruct (Ascii.eqb c ",") eqn:Ec; [by constructor|].
  simpl in Hc. destruct IH as [|w ws Hw Hws]; constructor; simpl; try done.
  - by rewrite Hc.
  - by rewrite Hc, Hw.
Qed.

(** A port specification holding nothing but commas and whitespace (the
    empty string among them) has no part: [parse_ports] returns the empty
    list and raises nothing. *)
Theorem parse_ports_blank (portspec : string) :
  only_commas_and_space portspec = true ->
  parts portspec = [] /\ parse_ports portspec = Ok [].
Proof.
  intros H%split_only_commas_and_space.
  assert (parts portspec = []) as Hp.
  { unfold parts. induction H as [|p l Hp _ IH]; simpl; [done|].
    by rewrite (strip_all_space p Hp). }
  split; [done|]. unfold parse_ports. by rewrite Hp.
Qed.

Lemma int_raises s e : int s = Raise e -> exists d, e = ValueError d.
Proof.
  unfold int.
  destruct (match drop_trailing_blanks (skip_blanks s) with
            | EmptyString => int_digits 0 false (drop_trailing_blanks (skip_blanks s))
            | String c r => _
            end); [done|]. intros [= <-]. eauto.
Qed.

Lemma expand_part_raises part e :
  expand_part part = Raise e -> exists d, e = ValueError d.
Proof.
  unfold expand_part. destruct (contains "-" part).
  - destruct (split1 "-" part) as [|a [|b [|]]]; try (intros [= <-]; eauto).
    destruct (int a) as [x|e1] eqn:Ea; simpl.
    + destruct (int b) as [y|e2] eqn:Eb; simpl; [done|].
      intros [= <-]. by eapply int_raises.
    + intros [= <-]. by eapply int_raises.
  - destruct (int part) as [x|e1] eqn:Ea; simpl; [done|].
    intros [= <-]. by eapply int_raises.
Qed.

Lemma expand_loop_raises ps out e :
  expand_loop out ps = Raise e ->
  exists part, In part ps /\ expand_part part = Raise e.
Proof.
  revert out; induction ps as [|part ps IH]; intros out; simpl; [done|].
  destruct (expand_part part) as [more|e1] eqn:E; simpl.
  - intros (part' & Hin & Hp)%IH. eauto.
  - intros [= <-]. eauto.
Qed.

(** [parse_ports] fails only with a [ValueError], and only because one of
    the comma-separated parts of the specification is malformed: the error
    is the one that part raises. *)
Theorem parse_ports_raises_value_error (portspec : string) (e : exn) :
  parse_ports portspec = Raise e ->
  exists part d,
    In part (parts portspec) /\ expand_part part = Raise e /\ e = ValueError d.
Proof.
  unfold parse_ports.
  destruct (expand_loop [] (parts portspec)) as [out|e1] eqn:E; simpl; [done|].
  intros [= <-]. apply expand_loop_raises in E as (part & Hin & Hp).
  destruct (expand_part_raises _ _ Hp) as [d ->]. eauto.
Qed.

(** A range a-b gives max(0, b - a + 1) ports: none at all, and no error,
    when b is below a. *)
Theorem expand_part_range_length (part a b : string) (x y : Z) :
  split1 "-" part = [a; b] -> int a = Ok x -> int b = Ok y ->
  exists l, expand_part part = Ok l
    /\ length l = Z.to_nat (y - x + 1)
    /\ (y < x -> l = []).
Proof.
  intros Hs Ha Hb. exists (range x (y + 1)).
  unfold expand_part. rewrite (split1_two_contains _ _ _ _ Hs), Hs, Ha. simpl.
  rewrite Hb. simpl. split; [done|]. unfold range. split.
  - rewrite length_seqZ. f_equal. lia.
  - intros Hlt. apply seqZ_nil. lia.
Qed.

Lemma uniq_loop_NoDup_id (seen : gset Z) (out : list Z) :
  NoDup out -> (forall p, p ∈ out -> p ∉ seen) -> uniq_loop seen out = out.
Proof.
  revert seen; induction out as [|p out IH]; intros seen Hnd Hdis; simpl; [done|].
  apply NoDup_cons in Hnd as [Hp Hnd].
  destruct (decide (p ∈ seen)) as [Hin|_].
  - exfalso. apply (Hdis p); [by left|done].
  - f_equal. apply IH; [done|]. intros q Hq. rewrite elem_of_union, elem_of_singleton.
    intros [->|Hs]; [done|]. apply (Hdis q); [by right|done].
Qed.

(** When the parts of a specification expand to ports that are all
    different, [parse_ports] returns exactly their concatenation, in the
    order written. *)
Theorem parse_ports_no_duplicates (portspec : string) (ls : list (list Z)) :
  mapM expand_part (parts portspec) = Ok ls ->
  NoDup (concat ls) ->
  parse_ports portspec = Ok (concat ls).
Proof.
  intros Hls Hnd. unfold parse_ports. rewrite expand_loop_mapM, Hls. simpl.
  f_equal. apply uniq_loop_NoDup_id; [done|]. intros p _. set_solver.
Qed.
End PortSpecFacts.

(** ** More on main *)

Section MainRunFacts.
Import PyStr Tasks Probe Executor Main.
Context {ip : Type} (ip_address : string -> option ip).
Variable open_lines : string -> result (list string).
Variable world : nat -> net.
Variable sched : nat -> nat.

(** With hosts given by [--targets], the selector "tcp", a port
    specification that parses and a positive concurrency, [main] always
    reaches the output writer, with one record for every pair of a listed
    host and a parsed port; the targets file is not read. *)
Theorem main_tcp_record_count (a : args) (t : string) (parsed : list Z) :
  targets a = Some t -> truthy t = true ->
  Ports.parse_ports (ports a) = Ok parsed ->
  Main.proto a = "tcp" -> 0 < concurrency a ->
  exists results,
    main ip_address open_lines world sched a = Some (Ok results)
    /\ length results = (length (Hosts.split_targets t) * length parsed)%nat.
Proof.
  intros Ht Htr Hp Hproto Hc. unfold main, read_hosts. rewrite Ht, Htr, Hp, Hproto.
  unfold Hosts.validate_hosts. rewrite (validate_loop_spec ip_address _ []). simpl.
  rewrite (filter_strip_clean _ (split_targets_clean t)).
  destruct (run_checks_tcp_returns world sched (bind a) (Hosts.split_targets t) parsed
              (concurrency a) Hc) as (results & Hrun & Hlen & _).
  eauto.
Qed.

(** A malformed port specification stops [main] before any probe: the
    [ValueError] of [parse_ports] leaves [main], whatever the network and
    the scheduling would have been. *)
Lemma main_rejects_bad_ports (a : args) (hosts : list string) (e : exn) :
  read_hosts open_lines a = Ok hosts ->
  Ports.parse_ports (ports a) = Raise e ->
  main ip_address open_lines world sched a = Some (Raise e)
  /\ exists d, e = ValueError d.
Proof.
  intros Hh Hp. split.
  - unfold main. by rewrite Hh, Hp.
  - unfold Ports.parse_ports in Hp.
    destruct (Ports.expand_loop [] (Ports.parts (ports a))) as [out|e1] eqn:E;
      simpl in Hp; [done|].
    injection Hp as <-. apply expand_loop_raises in E as (part & _ & Hpart).
    by eapply expand_part_raises.
Qed.
End MainRunFacts.

Section ScheduleFacts.
Import PyStr Tasks Probe Executor.
Variable world : nat -> net.
Variable bind_ip : option string.
Variable tasks : list Task.

Lemma recorded_omap (done : list nat) (results : list record) :
  Forall2 (recorded world bind_ip tasks) done results ->
  omap (record_at world bind_ip tasks) done = results.
Proof.
  induction 1 as [|k r done results (t & Ht & Hp) _ IH]; [done|].
  simpl. unfold record_at at 1. rewrite Ht, Hp. simpl. f_equal. exact IH.
Qed.

Lemma recorded_all_ok (done : list nat) (results : list record) (k : nat) :
  Forall2 (recorded world bind_ip tasks) done results -> k ∈ done ->
  exists t r, tasks !! k = Some t /\ probe (world k) bind_ip t = Ok r.
Proof.
  induction 1 as [|k' r done results (t & Ht & Hp) _ IH]; [by intros ?%elem_of_nil|].
  intros [->|Hin]%elem_of_cons; eauto.
Qed.

(** Provided each task meets the same network answers, the scheduling and
    the (positive) concurrency change the order of the records and nothing
    else: when one run returns, every other run returns too, with a
    permutation of the same records. *)
Theorem run_tasks_schedule_independent (sched1 sched2 : nat -> nat)
    (c1 c2 : Z) (results1 : list record) :
  0 < c1 -> 0 < c2 ->
  run_tasks world sched1 bind_ip tasks c1 = Some (Ok results1) ->
  exists results2,
    run_tasks world sched2 bind_ip tasks c2 = Some (Ok results2)
    /\ results1 ≡ₚ results2.
Proof.
  intros Hc1 Hc2 Hrun1.
  pose proof (run_tasks_spec world sched1 bind_ip tasks c1) as H1.
  rewrite Hrun1 in H1. destruct H1 as (done1 & Hres1 & Hperm1). specialize (Hperm1 Hc1).
  pose proof (run_tasks_spec world sched2 bind_ip tasks c2) as H2.
  destruct (run_tasks world sched2 bind_ip tasks c2) as [[results2|e]|]; [| |done].
  - destruct H2 as (done2 & Hres2 & Hperm2). specialize (Hperm2 Hc2).
    exists results2. split; [done|].
    rewrite <- (recorded_omap _ _ Hres1), <- (recorded_omap _ _ Hres2).
    by rewrite Hperm1, Hperm2.
  - destruct H2 as (k & t & Ht & Hp).
    assert (k ∈ done1) as Hin.
    { rewrite Hperm1. apply elem_of_seq. apply lookup_lt_Some in Ht. lia. }
    destruct (recorded_all_ok _ _ _ Hres1 Hin) as (t' & r & Ht' & Hr). congruence.
Qed.
End ScheduleFacts.

(** ** The further properties at concrete inputs *)

Section MoreInstances.
Import PyStr Tasks Probe Executor Main.

Lemma expand_targets_from_file_entries_witness :
  exists hosts,
    Hosts.expand_targets_from_file sample_file (Some "hosts.txt") = Ok hosts
    /\ Hosts.validate_hosts no_literal hosts = hosts.
Proof.
  destruct (expand_targets_from_file_entries no_literal sample_file "hosts.txt"
              ["# hosts"; " 10.0.0.1  # core"; ""; "db.example.com"] eq_refl)
    as (hosts & H1 & _ & _ & H4).
  exists hosts. by split.
Defined.

Lemma udp_probe_source_address_witness :
  source_address (Ok ("192.168.1.10", "192.0.2.7", 53, "no-response", 12))
  = Some (fallback_chain (getsockname net_silent) None
            (local_ip_try net_silent (resolve_host net_silent "192.0.2.7"))).
Proof.
  apply (udp_probe_source_address net_silent "192.0.2.7" 53 None). reflexivity.
Defined.

Lemma udp_probe_raises_from_witness :
  socket_new net_unresolvable = Raise (OSError "[Errno -2] Name or service not known")
  \/ close net_unresolvable = Raise (OSError "[Errno -2] Name or service not known")
  \/ settimeout net_unresolvable = Raise (OSError "[Errno -2] Name or service not known")
  \/ connect net_unresolvable (resolve_host net_unresolvable "no-such-host.invalid") 53
     = Raise (OSError "[Errno -2] Name or service not known")
  \/ send net_unresolvable = Raise (OSError "[Errno -2] Name or service not known")
  \/ (recv net_unresolvable = Raise (OSError "[Errno -2] Name or service not known")
      /\ is_OSError (OSError "[Errno -2] Name or service not known") = false).
Proof.
  apply (udp_probe_raises_from net_unresolvable "no-such-host.invalid" 53 None).
  reflexivity.
Defined.

Lemma probe_record_fields_witness :
  exists r, probe net_unresolvable None ("no-such-host.invalid", 443, "tcp") = Ok r
    /\ dst r = "no-such-host.invalid" /\ Executor.port r = 443.
Proof.
  eexists. split; [reflexivity|].
  destruct (probe_record_fields net_unresolvable None "no-such-host.invalid" 443 "tcp"
              _ eq_refl) as (Hp & _ & _ & _ & Hd).
  split; [|exact Hp].
  apply (Hd (OSError "[Errno -2] Name or service not known")). reflexivity.
Defined.

Lemma run_tasks_raises_from_udp_witness :
  exists (k : nat) host port prot,
    [("192.0.2.7", 443, "tcp"); ("no-such-host.invalid", 53, "udp")] !! k
      = Some (host, port, prot)
    /\ prot <> "tcp"
    /\ udp_probe_sync net_unresolvable host port None
       = Raise (OSError "[Errno -2] Name or service not known").
Proof.
  apply (run_tasks_raises_from_udp (fun _ => net_unresolvable) (fun n => n) None
           [("192.0.2.7", 443, "tcp"); ("no-such-host.invalid", 53, "udp")] 2).
  vm_compute. reflexivity.
Defined.

Lemma run_checks_tcp_always_returns_witness :
  exists results,
    run_checks (fun _ => net_unresolvable) (fun n => n) (Some "10.9.9.9")
      ["a.example"; "b.example"] [22; 443; 8080] "tcp" 4 = Some (Ok results)
    /\ length results = Nat.mul (length ["a.example"; "b.example"]) (length [22; 443; 8080])
    /\ Forall (fun r => Executor.proto r = "tcp") results.
Proof.
  apply (run_checks_tcp_always_returns (fun _ => net_unresolvable) (fun n => n)
           (Some "10.9.9.9") ["a.example"; "b.example"] [22; 443; 8080] 4).
  lia.
Defined.

Lemma run_tasks_without_workers_witness :
  workers (init [("192.0.2.7", 443, "tcp")] 0) = []
  /\ run_tasks (fun _ => net_silent) (fun n => n) None [("192.0.2.7", 443, "tcp")] 0
     = Some (Ok []).
Proof.
  apply (run_tasks_without_workers (fun _ => net_silent) (fun n => n) None
           [("192.0.2.7", 443, "tcp")] 0).
  lia.
Defined.

Lemma reachable_bounds_witness :
  (0%nat ∈ in_flight [Ready; Probing 1 ("192.0.2.7", 53, "udp")]
   \/ exists r,
        r ∈ [ {| src := "192.168.1.10"; dst := "192.0.2.7"; Executor.port := 443;
                 Executor.proto := "tcp"; status := "open"; elapsed := 12 |} ]
        /\ recorded (fun _ => net_silent) None
             [("192.0.2.7", 443, "tcp"); ("192.0.2.7", 53, "udp"); ("192.0.2.8", 53, "udp")]
             0 r)
  /\ (1%nat ∈ in_flight [Ready; Probing 1 ("192.0.2.7", 53, "udp")]
      \/ exists r,
           r ∈ [ {| src := "192.168.1.10"; dst := "192.0.2.7"; Executor.port := 443;
                    Executor.proto := "tcp"; status := "open"; elapsed := 12 |} ]
           /\ recorded (fun _ => net_silent) None
                [("192.0.2.7", 443, "tcp"); ("192.0.2.7", 53, "udp"); ("192.0.2.8", 53, "udp")]
                1 r).
Proof.
  assert (reachable (fun _ => net_silent) None
            [("192.0.2.7", 443, "tcp"); ("192.0.2.7", 53, "udp"); ("192.0.2.8", 53, "udp")] 2
            {| queue := [("192.0.2.8", 53, "udp")];
               results := [ {| src := "192.168.1.10"; dst := "192.0.2.7";
                               Executor.port := 443; Executor.proto := "tcp";
                               status := "open"; elapsed := 12 |} ];
               workers := [Ready; Probing 1 ("192.0.2.7", 53, "udp")];
               claimed := 2 |}) as Hreach.
  { eapply reach_step with (i := 0%nat);
      [eapply reach_step with (i := 1%nat);
         [eapply reach_step with (i := 0%nat); [apply reach_init|]|]|];
      reflexivity. }
  pose proof (proj1 (proj2 (proj2 (proj2 (proj2 (proj2
                (reachable_bounds _ _ _ _ _ Hreach))))))) as H.
  split; apply H; simpl; lia.
Defined.

Lemma parse_ports_blank_witness :
  Ports.parts " , ,, " = [] /\ Ports.parse_ports " , ,, " = Ok [].
Proof. apply (parse_ports_blank " , ,, "). reflexivity. Defined.

Lemma parse_ports_raises_value_error_witness :
  exists part d,
    In part (Ports.parts "22,abc")
    /\ Ports.expand_part part
       = Raise (ValueError "invalid literal for int() with base 10: 'abc'")
    /\ ValueError "invalid literal for int() with base 10: 'abc'" = ValueError d.
Proof. apply (parse_ports_raises_value_error "22,abc"). reflexivity. Defined.

Lemma expand_part_range_length_witness :
  exists l, Ports.expand_part "12-10" = Ok l
    /\ length l = Z.to_nat (10 - 12 + 1) /\ (10 < 12 -> l = []).
Proof. apply (expand_part_range_length "12-10" "12" "10" 12 10); reflexivity. Defined.

Lemma parse_ports_no_duplicates_witness :
  Ports.parse_ports "443, 20-22 ,8080" = Ok (concat [[443]; [20; 21; 22]; [8080]]).
Proof.
  apply (parse_ports_no_duplicates "443, 20-22 ,8080" [[443]; [20; 21; 22]; [8080]]).
  - reflexivity.
  - apply (bool_decide_unpack _). vm_compute. reflexivity.
Defined.

Lemma main_tcp_record_count_witness :
  exists results,
    main no_literal no_file (fun _ => net_silent) (fun n => n) args_two_hosts
      = Some (Ok results)
    /\ length results
       = Nat.mul (length (Hosts.split_targets "10.0.0.1,10.0.0.2")) (length [22; 443]).
Proof.
  apply (main_tcp_record_count no_literal no_file (fun _ => net_silent) (fun n => n)
           args_two_hosts "10.0.0.1,10.0.0.2" [22; 443]); reflexivity.
Defined.

Lemma main_rejects_bad_ports_witness :
  main no_literal no_file (fun _ => net_silent) (fun n => n) args_bad_ports
    = Some (Raise (ValueError "invalid literal for int() with base 10: 'abc'"))
  /\ exists d, ValueError "invalid literal for int() with base 10: 'abc'" = ValueError d.
Proof.
  apply (main_rejects_bad_ports no_literal no_file (fun _ => net_silent) (fun n => n)
           args_bad_ports ["10.0.0.1"]); reflexivity.
Defined.

Lemma run_tasks_schedule_independent_witness :
  exists results2,
    run_tasks (fun _ => net_silent) (fun n => 0%nat) None
      [("192.0.2.7", 443, "tcp"); ("192.0.2.7", 53, "udp"); ("192.0.2.8", 53, "udp")] 1
      = Some (Ok results2)
    /\ match run_tasks (fun _ => net_silent) (fun n => n) None
               [("192.0.2.7", 443, "tcp"); ("192.0.2.7", 53, "udp"); ("192.0.2.8", 53, "udp")] 3
       with
       | Some (Ok results1) => results1 ≡ₚ results2
       | _ => False
       end.
Proof.
  destruct (run_tasks (fun _ => net_silent) (fun n => n) None
              [("192.0.2.7", 443, "tcp"); ("192.0.2.7", 53, "udp"); ("192.0.2.8", 53, "udp")] 3)
    as [[results1|e]|] eqn:E; [|vm_compute in E; discriminate..].
  apply (run_tasks_schedule_independent (fun _ => net_silent) None _ (fun n => n)
           (fun n => 0%nat) 3 1 results1); [lia|lia|exact E].
Defined.
End MoreInstances.
